(** * falsevisir: registration and fusion of a visible and an infrared image

    Shallow embedding of [src/falsevisir/falsevisir.py].

    - numpy arrays of rank 2 and 3 are nested lists of exact rationals
      ([Qc]); the float samples of the program are abstracted to them.
    - A Python call that may raise returns a [result].
    - The functions of scikit-image the program calls ([transform.resize],
      [transform.warp], [measure.ransac], the feature detectors ...) are
      not part of the program.  They are the fields of the record
      [skimage]; what a theorem needs to know about them is an explicit
      hypothesis.
    - The global dictionary [CFG] is the record [config]; the functions
      read it through the parameter [cfg], and [CFG] holds the values
      written in the source.
    - Logging and on-screen display have no effect on the results and are
      left out. *)

From Stdlib Require Import String.
From Stdlib Require Import List Bool Arith ZArith QArith Qcanon Qround Lia.
Import ListNotations.

Close Scope Qc_scope.
Close Scope Q_scope.
Open Scope string_scope.
Open Scope list_scope.
Open Scope nat_scope.

Set Implicit Arguments.

(** ** Python results *)

(** The exceptions the program can end with.  [InsufficientCorrespondence]
    is the name the specification gives to the failure of the robust fit;
    only the fit modelled from the specification raises it. *)
Inductive exn : Type :=
| AssertionError
| ValueError (msg : string)
| IndexError
| ZeroDivisionError
| TypeError
| AttributeError
| InsufficientCorrespondence.

Inductive result (A : Type) : Type :=
| Ok (a : A)
| Err (e : exn).

Arguments Ok {A} a.
Arguments Err {A} e.

Definition bind {A B : Type} (m : result A) (k : A -> result B) : result B :=
  match m with
  | Ok a => k a
  | Err e => Err e
  end.

Notation "x <- m ;; k" := (bind m (fun x => k))
  (at level 61, m at next level, right associativity).
Notation "' p <- m ;; k" := (bind m (fun p => k))
  (at level 61, p pattern, m at next level, right associativity).

Fixpoint mapM {A B : Type} (f : A -> result B) (l : list A) : result (list B) :=
  match l with
  | [] => Ok []
  | x :: l' => y <- f x ;; ys <- mapM f l' ;; Ok (y :: ys)
  end.

(** ** numpy arrays *)

Definition row2 := list Qc.
Definition grid2 := list row2.
Definition pixel := list Qc.
Definition grid3 := list (list pixel).

(** An image is an array of rank 2 (rows of samples) or of rank 3 (rows of
    pixels, a pixel being the list of its channels). *)
Inductive ndarray : Type :=
| Arr2 (a : grid2)
| Arr3 (a : grid3).

Definition ndim (a : ndarray) : nat :=
  match a with
  | Arr2 _ => 2
  | Arr3 _ => 3
  end.

(** [a.shape[:2]] *)
Definition shape2 (a : ndarray) : nat * nat :=
  match a with
  | Arr2 g => (length g, length (hd [] g))
  | Arr3 g => (length g, length (hd [] g))
  end.

(** [a.size]: the product of the entries of [a.shape] *)
Definition np_size (a : ndarray) : nat :=
  match a with
  | Arr2 g => length g * length (hd [] g)
  | Arr3 g => length g * length (hd [] g) * length (hd [] (hd [] g))
  end.

Definition rect2(h w : nat) (g : grid2) : Prop :=
  length g = h /\ Forall (fun r => length r = w) g.

Definition rect3 (h w c : nat) (g : grid3) : Prop :=
  length g = h /\
  Forall (fun r => length r = w /\ Forall (fun p => length p = c) r) g.

(** [a[:, :, k]] *)
Definition take_channel (k : nat) (a : ndarray) : result grid2 :=
  match a with
  | Arr2 _ => Err IndexError
  | Arr3 g =>
      mapM (mapM (fun p : pixel =>
                    match nth_error p k with
                    | Some x => Ok x
                    | None => Err IndexError
                    end)) g
  end.

Definition dstack_msg : string :=
  "all the input array dimensions except for the concatenation axis must match exactly".

Fixpoint zip3M {A B : Type} (f : A -> A -> A -> result B) (a b c : list A)
  : result (list B) :=
  match a, b, c with
  | [], [], [] => Ok []
  | x :: a', y :: b', z :: c' =>
      r <- f x y z ;; rs <- zip3M f a' b' c' ;; Ok (r :: rs)
  | _, _, _ => Err (ValueError dstack_msg)
  end.

(** [np.atleast_3d(a)]: an array of shape [(M, N)] becomes [(M, N, 1)] *)
Definition atleast_3d (a : ndarray) : grid3 :=
  match a with
  | Arr2 g => map (map (fun x => [x])) g
  | Arr3 g => g
  end.

(** [np.dstack((a, b, c))]: concatenation along the third axis *)
Definition dstack (a b c : ndarray) : result ndarray :=
  g <- zip3M (zip3M (fun p q r : pixel => Ok (p ++ q ++ r)))
         (atleast_3d a) (atleast_3d b) (atleast_3d c) ;;
  Ok (Arr3 g).

(** [s * a] for a scalar [s] *)
Definition nd_scale (s : Qc) (a : ndarray) : ndarray :=
  match a with
  | Arr2 g => Arr2 (map (map (Qcmult s)) g)
  | Arr3 g => Arr3 (map (map (map (Qcmult s))) g)
  end.

Definition bcast_msg : string := "operands could not be broadcast together".

Fixpoint zipM {A : Type} (f : A -> A -> result A) (a b : list A)
  : result (list A) :=
  match a, b with
  | [], [] => Ok []
  | x :: a', y :: b' => r <- f x y ;; rs <- zipM f a' b' ;; Ok (r :: rs)
  | _, _ => Err (ValueError bcast_msg)
  end.

(** One axis of numpy's broadcasting: equal lengths are paired, an axis of
    length 1 is stretched, anything else raises. *)
Definition bzip {A : Type} (f : A -> A -> result A) (a b : list A)
  : result (list A) :=
  if length a =? length b then zipM f a b
  else match a, b with
       | [x], _ => mapM (f x) b
       | _, [y] => mapM (fun x => f x y) a
       | _, _ => Err (ValueError bcast_msg)
       end.

Definition add0 (x y : Qc) : result Qc := Ok (x + y)%Qc.
Definition add1 : list Qc -> list Qc -> result (list Qc) := bzip add0.
Definition add2 : grid2 -> grid2 -> result grid2 := bzip add1.
Definition add3 : grid3 -> grid3 -> result grid3 := bzip add2.

(** [a + b]; an array of rank 2 is aligned with the two trailing axes of an
    array of rank 3. *)
Definition nd_add (a b : ndarray) : result ndarray :=
  match a, b with
  | Arr2 x, Arr2 y => r <- add2 x y ;; Ok (Arr2 r)
  | Arr3 x, Arr3 y => r <- add3 x y ;; Ok (Arr3 r)
  | Arr2 x, Arr3 y => r <- add3 [x] y ;; Ok (Arr3 r)
  | Arr3 x, Arr2 y => r <- add3 x [y] ;; Ok (Arr3 r)
  end.

(** [a[mask]] with a boolean mask over the first axis *)
Fixpoint mask_select {A : Type} (a : list A) (mask : list bool)
  : result (list A) :=
  match a, mask with
  | [], [] => Ok []
  | x :: a', m :: mask' =>
      r <- mask_select a' mask' ;; Ok (if m then x :: r else r)
  | _, _ => Err IndexError
  end.

(** [a[idx]] with a list of indices over the first axis *)
Definition take_rows {A : Type} (a : list A) (idx : list nat)
  : result (list A) :=
  mapM (fun i => match nth_error a i with
                 | Some x => Ok x
                 | None => Err IndexError
                 end) idx.

(** [l[i]] on a Python list *)
Definition py_index {A : Type} (l : list A) (i : nat) : result A :=
  match nth_error l i with
  | Some x => Ok x
  | None => Err IndexError
  end.

(** [min(l)] on a Python list of integers *)
Definition py_min (l : list nat) : result nat :=
  match l with
  | [] => Err (ValueError "min() arg is an empty sequence")
  | x :: l' => Ok (fold_left Nat.min l' x)
  end.

(** ** Coordinates *)

Definition qc_of_Z (z : Z) : Qc := Q2Qc (inject_Z z).
Definition qc_of_nat (n : nat) : Qc := qc_of_Z (Z.of_nat n).
Definition qc_leb (x y : Qc) : bool := Qle_bool x y.
Definition qc_ltb (x y : Qc) : bool := negb (Qle_bool y x).
Definition qc_min (x y : Qc) : Qc := if qc_leb x y then x else y.
Definition qc_max (x y : Qc) : Qc := if qc_leb x y then y else x.
Definition qc_ceil (x : Qc) : Z := Qceiling x.

(** A point is [(x, y)], that is (column, row). *)
Definition point := (Qc * Qc)%type.

(** A keypoint is [(row, col)], as the detectors return it. *)
Definition keypoint := (Qc * Qc)%type.

Definition descriptor := list bool.

(** [np.min(pts, axis=0)] and [np.max(pts, axis=0)] on an [(N, 2)] array
    with at least one row [p] *)
Definition min_axis0 (p : point) (pts : list point) : point :=
  fold_left (fun m q => (qc_min (fst m) (fst q), qc_min (snd m) (snd q))) pts p.

Definition max_axis0 (p : point) (pts : list point) : point :=
  fold_left (fun m q => (qc_max (fst m) (fst q), qc_max (snd m) (snd q))) pts p.

(** ** Entries of a transformation matrix

    The matrix of a fitted model holds floats that may be NaN or infinite;
    the validity check depends on it. *)
Inductive fval : Type :=
| FNaN
| FNegInf
| FPosInf
| FFin (q : Qc).

Definition isnan (x : fval) : bool :=
  match x with
  | FNaN => true
  | _ => false
  end.

(** [x > q] and [x < q] as IEEE comparisons: false on NaN *)
Definition fgt (x : fval) (q : Qc) : bool :=
  match x with
  | FNaN => false
  | FNegInf => false
  | FPosInf => true
  | FFin a => qc_ltb q a
  end.

Definition flt (x : fval) (q : Qc) : bool :=
  match x with
  | FNaN => false
  | FNegInf => true
  | FPosInf => false
  | FFin a => qc_ltb a q
  end.

Definition row3 (A : Type) : Type := (A * A * A)%type.
Definition mat3 (A : Type) : Type := row3 (row3 A).

Definition row3_nth {A : Type} (r : row3 A) (j : nat) : A :=
  match r, j with
  | (a, _, _), 0 => a
  | (_, b, _), 1 => b
  | (_, _, c), _ => c
  end.

(** [m[i][j]] for [i, j < 3] *)
Definition entry {A : Type} (m : mat3 A) (i j : nat) : A :=
  row3_nth (row3_nth m i) j.

Definition row3_any {A : Type} (f : A -> bool) (r : row3 A) : bool :=
  let '(a, b, c) := r in f a || f b || f c.

Definition row3_all2 {A B : Type} (f : A -> B -> bool) (r : row3 A) (s : row3 B)
  : bool :=
  let '(a, b, c) := r in
  let '(x, y, z) := s in
  f a x && f b y && f c z.

(** [np.isnan(m).any()] *)
Definition mat3_any_nan (m : mat3 fval) : bool := row3_any (row3_any isnan) m.

(** [(m > lim).all()] and [(m < lim).all()] *)
Definition mat3_all_gt (m : mat3 fval) (lim : mat3 Qc) : bool :=
  row3_all2 (row3_all2 fgt) m lim.

Definition mat3_all_lt (m : mat3 fval) (lim : mat3 Qc) : bool :=
  row3_all2 (row3_all2 flt) m lim.

(** ** Configuration *)

Record preprocess_config : Type := {
  equalize : bool;
  normalize : bool;
  edge : bool
}.

Record config : Type := {
  max_distance : Qc;
  min_distance : nat;
  threshold_rel : Qc;
  patch_size : nat;
  method : string;
  min_samples : nat;
  residual_threshold : Qc;
  max_trials : nat;
  irr_weight : Qc;
  downsize : nat;
  cfg_preprocess_images : preprocess_config;
  model_robust_param_limits : mat3 Qc * mat3 Qc
}.

Definition dec (n : Z) (d : positive) : Qc := Q2Qc (n # d)%Q.

(** The dictionary [CFG] of the source *)
Definition CFG : config := {|
  max_distance := qc_of_Z 200;
  min_distance := 1;
  threshold_rel := dec 1 10000000;
  patch_size := 59;
  method := "HARRIS";
  min_samples := 10;
  residual_threshold := qc_of_Z 1;
  max_trials := 800;
  irr_weight := dec 5 10;
  downsize := 500;
  cfg_preprocess_images :=
    {| equalize := false; normalize := true; edge := false |};
  model_robust_param_limits :=
    (((qc_of_Z (-10), qc_of_Z (-1), qc_of_Z (-100)),
      (qc_of_Z (-1), qc_of_Z (-2), qc_of_Z (-100)),
      (dec (-1) 10, dec (-2) 100, qc_of_Z 0)),
     ((qc_of_Z 10, qc_of_Z 1, qc_of_Z 100),
      (qc_of_Z 1, qc_of_Z 2, qc_of_Z 100),
      (dec 1 10, dec 2 100, qc_of_Z 2)))
|}.

(** ** The functions of scikit-image the program calls

    [transform_t] is the type of the transformation objects
    ([ProjectiveTransform], [SimilarityTransform]).  [tf_call t p] is
    [t(coords)] on one row of [coords]; [tf_add t u] is [t + u];
    [tf_inverse t] is [t.inverse].  [warp im inv shape cval] is
    [transform.warp(im, inv, output_shape=shape, cval=cval)].  The
    estimator class passed to [ransac] is always [ProjectiveTransform] and
    is not an argument here; [ransac] may return [None] for the model.

    [resize] and [warp] are total functions here, while the library
    raises on an image without samples and on a requested height or width
    of 0.  The statements that need one of them to return an image are
    made for images that have a row and a column and for positive
    requested sizes. *)
Record skimage : Type := {
  transform_t : Type;
  tf_params : transform_t -> mat3 fval;
  tf_call : transform_t -> point -> point;
  tf_add : transform_t -> transform_t -> transform_t;
  tf_inverse : transform_t -> transform_t;
  similarity_translation : point -> transform_t;
  similarity_scale : Qc -> transform_t;
  resize : ndarray -> nat * nat -> ndarray;
  warp : ndarray -> transform_t -> Z * Z -> Qc -> ndarray;
  rgb2gray : ndarray -> result ndarray;
  rescale_intensity : ndarray -> ndarray;
  equalize_hist : ndarray -> ndarray;
  canny : ndarray -> Qc -> Qc -> Qc -> ndarray;
  corner_harris : ndarray -> ndarray;
  corner_peaks : ndarray -> nat -> Qc -> list keypoint;
  brief_extract :
    nat -> ndarray -> list keypoint -> result (list bool * list descriptor);
  orb_detect_and_extract :
    nat -> Qc -> ndarray -> result (list keypoint * list descriptor);
  match_descriptors :
    list descriptor -> list descriptor -> Qc -> list (nat * nat);
  ransac :
    list point * list point -> nat -> Qc -> nat ->
    result (option transform_t * list bool)
}.

(** ** The program *)

Section Program.

Variable lib : skimage.
Variable cfg : config.

Let transform := transform_t lib.

(** [blend_image(vis, irr, weight)] *)
Definition blend_image (vis irr : ndarray) (weight : Qc) : result ndarray :=
  irr <- (if ndim irr =? 2 then dstack irr irr irr else Ok irr) ;;
  nd_add (nd_scale (1 - weight)%Qc vis) (nd_scale weight irr).

(** [false_image(vis, irr)] *)
Definition false_image (vis irr : ndarray) : result ndarray :=
  irr <- (if 2 <? ndim irr then rgb2gray lib irr else Ok irr) ;;
  vis0 <- take_channel 0 vis ;;
  vis1 <- take_channel 1 vis ;;
  dstack irr (Arr2 vis0) (Arr2 vis1).

Definition reduce_msg : string :=
  "zero-size array to reduction operation which has no identity".

Definition min_msg : string :=
  "zero-size array to reduction operation minimum which has no identity".

(** [warp_image(images, model_robust)].  Coordinates are exact rationals:
    the difference [corner_max - corner_min], which numpy takes in
    float64, is the exact one here. *)
Definition warp_image (images : ndarray * ndarray) (model_robust : transform)
  : result (ndarray * ndarray) :=
  let '(r, c) := shape2 (fst images) in
  let zero := qc_of_nat 0 in
  let corners : list point :=
    [(zero, zero); (zero, qc_of_nat r); (qc_of_nat c, zero);
     (qc_of_nat c, qc_of_nat r)] in
  let warped_corners := map (tf_call lib model_robust) corners in
  let all_corners := warped_corners ++ corners in
  match all_corners with
  | [] => Err (ValueError reduce_msg)
  | p :: rest =>
      let corner_min := min_axis0 p rest in
      let corner_max := max_axis0 p rest in
      let output_shape : Z * Z :=
        (qc_ceil (snd corner_max - snd corner_min)%Qc,
         qc_ceil (fst corner_max - fst corner_min)%Qc) in
      let offset :=
        similarity_translation lib
          ((- fst corner_min)%Qc, (- snd corner_min)%Qc) in
      (* the debug message evaluates images[1].min() and images[1].max() *)
      if np_size (snd images) =? 0 then Err (ValueError min_msg) else
      let warp_0 :=
        warp lib (fst images) (tf_inverse lib offset) output_shape zero in
      let warp_1 :=
        warp lib (snd images)
          (tf_inverse lib (tf_add lib model_robust offset)) output_shape zero in
      Ok (warp_0, warp_1)
  end.

(** [resize_images(images, new_height)]; [None] is the default argument *)
Definition resize_images (images : list ndarray) (new_height : option nat)
  : result (list ndarray) :=
  let heights := map (fun im => fst (shape2 im)) images in
  new_height <- match new_height with
                | Some (S n) => Ok (S n)
                | _ => py_min heights
                end ;;
  mapM (fun im =>
          let '(h, w) := shape2 im in
          if h =? 0 then Err ZeroDivisionError
          else Ok (resize lib im (new_height, w * new_height / h)))
       images.

(** [transformation_valid(model_robust)] *)
Definition transformation_valid (model_robust : transform) : bool :=
  if mat3_any_nan (tf_params lib model_robust) then false
  else
    let '(mmin, mmax) := model_robust_param_limits cfg in
    mat3_all_gt (tf_params lib model_robust) mmin
    && mat3_all_lt (tf_params lib model_robust) mmax.

(** [preprocess_images(images)] *)
Definition preprocess_images (images : list ndarray) : result (list ndarray) :=
  images_gray <-
    mapM (fun im => if 2 <? ndim im then rgb2gray lib im else Ok im) images ;;
  let images_gray :=
    if normalize (cfg_preprocess_images cfg)
    then map (rescale_intensity lib) images_gray else images_gray in
  let images_gray :=
    if equalize (cfg_preprocess_images cfg)
    then map (equalize_hist lib) images_gray else images_gray in
  let images_gray :=
    if edge (cfg_preprocess_images cfg)
    then map (fun im => canny lib im (qc_of_Z 2) (dec 5 100) (dec 1 10))
           images_gray
    else images_gray in
  Ok images_gray.

(** The loop [for im in images] of [extract]: [keypoints] and [descriptors]
    grow by one entry per image. *)
Fixpoint extract_loop
  (body : ndarray -> result (list keypoint * list descriptor))
  (images : list ndarray)
  : result (list (list keypoint) * list (list descriptor)) :=
  match images with
  | [] => Ok ([], [])
  | im :: rest =>
      '(k, d) <- body im ;;
      '(keypoints, descriptors) <- extract_loop body rest ;;
      Ok (k :: keypoints, d :: descriptors)
  end.

(** [extract(images, method, **CFG)] *)
Definition extract (images : list ndarray) (method : string)
  : result (list (list keypoint) * list (list descriptor)) :=
  if (method =? "ORB")%string then
    extract_loop (orb_detect_and_extract lib 1000 (dec 2 100)) images
  else if (method =? "HARRIS")%string then
    extract_loop
      (fun im =>
         let keypoints1 :=
           corner_peaks lib (corner_harris lib im)
             (min_distance cfg) (threshold_rel cfg) in
         '(mask, descriptors) <- brief_extract lib (patch_size cfg) im keypoints1 ;;
         kept <- mask_select keypoints1 mask ;;
         Ok (kept, descriptors))
      images
  else Ok ([], []).

Definition swap (p : Qc * Qc) : Qc * Qc := (snd p, fst p).

(** [warp_images(vis, irr)] up to the call of [preprocess_images] (lines
    254-265 of the source): the full-resolution pair, the scale of the
    reduced copies and the reduced grey copies used for matching. *)
Definition warp_images_gray (vis irr : ndarray)
  : result (ndarray * ndarray * Qc * list ndarray) :=
  if negb (ndim vis =? 3) then Err AssertionError else
  irr <- (if 2 <? ndim irr
          then g <- take_channel 0 irr ;; Ok (Arr2 g)
          else Ok irr) ;;
  let images := (vis, irr) in
  let orig_height := fst (shape2 (fst images)) in
  images_small <- resize_images [fst images; snd images] (Some (downsize cfg)) ;;
  downsize_scale <-
    (if orig_height =? 0 then Err ZeroDivisionError
     else Ok (qc_of_nat (downsize cfg) / qc_of_nat orig_height)%Qc) ;;
  images_gray <- preprocess_images images_small ;;
  Ok (images, downsize_scale, images_gray).

(** [warp_images(vis, irr)] up to the two point sets handed to [ransac]
    (lines 254-282 of the source). *)
Definition warp_images_keys (vis irr : ndarray)
  : result (ndarray * ndarray * Qc * (list point * list point)) :=
  '(images, downsize_scale, images_gray) <- warp_images_gray vis irr ;;
  '(keypoints, descriptors) <- extract images_gray (method cfg) ;;
  (* the debug message evaluates keypoints[0] and keypoints[1] *)
  _ <- py_index keypoints 0 ;;
  _ <- py_index keypoints 1 ;;
  matches <- match descriptors with
             | [d0; d1] => Ok (match_descriptors lib d0 d1 (max_distance cfg))
             | _ => Err TypeError
             end ;;
  keypoints1 <- py_index keypoints 1 ;;
  src <- take_rows keypoints1 (map snd matches) ;;
  let src_keys := map swap src in
  keypoints0 <- py_index keypoints 0 ;;
  dst <- take_rows keypoints0 (map fst matches) ;;
  let dst_keys := map swap dst in
  Ok (images, downsize_scale, (src_keys, dst_keys)).

(** [warp_images(vis, irr)] up to the call of [ransac] (lines 254-289 of
    the source): what [ransac] returned, besides the pair and the scale. *)
Definition warp_images_fit (vis irr : ndarray)
  : result (ndarray * ndarray * Qc * option transform * list bool) :=
  '(images, downsize_scale, keys) <- warp_images_keys vis irr ;;
  '(model_robust, inliers) <-
    ransac lib keys
      (min_samples cfg) (residual_threshold cfg) (max_trials cfg) ;;
  Ok (images, downsize_scale, model_robust, inliers).

Definition failed_msg : string :=
  "Transformation failed, not enough similar features?".

(** [warp_images(vis, irr)] *)
Definition warp_images (vis irr : ndarray) : result (ndarray * ndarray) :=
  '(images, downsize_scale, model_robust, inliers) <- warp_images_fit vis irr ;;
  (* the debug message evaluates model_robust.params *)
  model_robust <- match model_robust with
                  | Some m => Ok m
                  | None => Err AttributeError
                  end ;;
  if negb (transformation_valid model_robust) then Err (ValueError failed_msg)
  else
    let S_down := similarity_scale lib downsize_scale in
    S_up <- (if Qc_eq_dec downsize_scale (qc_of_nat 0) then Err ZeroDivisionError
             else Ok (similarity_scale lib (1 / downsize_scale)%Qc)) ;;
    let full_tf := tf_add lib (tf_add lib S_down model_robust) S_up in
    warp_image images full_tf.

(** [process_pair] on the two decoded images; it returns the four images
    the source displays and saves: VIS, IR, BLEND, FALSE_COLOR. *)
Definition process_pair (vi_image ir_image : ndarray)
  : result (ndarray * ndarray * ndarray * ndarray) :=
  resized <- resize_images [vi_image; ir_image] None ;;
  match resized with
  | [vi_image; ir_image] =>
      '(vi_image, ir_image) <- warp_images vi_image ir_image ;;
      blend_im <- blend_image vi_image ir_image (dec 5 10) ;;
      false_im <- false_image vi_image ir_image ;;
      Ok (vi_image, ir_image, blend_im, false_im)
  | _ => Err (ValueError "not enough values to unpack")
  end.

End Program.

(** ** The robust fit, from the specification

    [measure.ransac] belongs to scikit-image; its code is not among the
    sources.  The model below follows section 4.4 of the specification. *)

Section RobustModelEstimator.

Variable T : Type.

(** the estimator: a candidate model from a set of pairs, if there is one *)
Variable estimate : list (point * point) -> option T.

(** the residual of a pair under a model *)
Variable residual : T -> point * point -> Qc.

(** the random source: the indices drawn at trial [k] *)
Variable draw : nat -> list nat.

Definition inlier_mask (m : T) (threshold : Qc) (pairs : list (point * point))
  : list bool :=
  map (fun p => qc_ltb (residual m p) threshold) pairs.

Definition count_true (mask : list bool) : nat := length (filter id mask).

Definition sample (pairs : list (point * point)) (idx : list nat)
  : list (point * point) :=
  flat_map (fun i => match nth_error pairs i with
                     | Some p => [p]
                     | None => []
                     end) idx.

Fixpoint select (pairs : list (point * point)) (mask : list bool)
  : list (point * point) :=
  match pairs, mask with
  | p :: pairs', b :: mask' =>
      if b then p :: select pairs' mask' else select pairs' mask'
  | _, _ => []
  end.

(** The trials in order; a later candidate replaces the best one only with
    strictly more inliers, so that the first encountered wins a tie. *)
Fixpoint run_trials (pairs : list (point * point)) (threshold : Qc)
  (trials : list nat) (best : option (T * list bool))
  : option (T * list bool) :=
  match trials with
  | [] => best
  | k :: trials' =>
      let best' :=
        match estimate (sample pairs (draw k)) with
        | None => best
        | Some m =>
            let mask := inlier_mask m threshold pairs in
            match best with
            | None => Some (m, mask)
            | Some (_, mask0) =>
                if count_true mask0 <? count_true mask
                then Some (m, mask) else best
            end
        end in
      run_trials pairs threshold trials' best'
  end.

(** Modelled from the spec: [skimage.measure.ransac], called by
    [warp_images], is not among the sources.  Section 4.4: "fails with
    InsufficientCorrespondence if fewer matches exist than the minimum
    sample size"; up to [max_trials] trials, each fitting a candidate to a
    drawn sample and counting the pairs whose residual is below the
    threshold; the best candidate is refitted on all its inliers.
    Section 7: exhausting the trials without any valid sample is
    InsufficientCorrespondence too. *)
Definition fit (data : list point * list point) (min_samples : nat)
  (residual_threshold : Qc) (max_trials : nat)
  : result (option T * list bool) :=
  let pairs := combine (fst data) (snd data) in
  if length pairs <? min_samples then Err InsufficientCorrespondence
  else
    match run_trials pairs residual_threshold (seq 0 max_trials) None with
    | None => Err InsufficientCorrespondence
    | Some (m, mask) =>
        match estimate (select pairs mask) with
        | Some m' => Ok (Some m', mask)
        | None => Ok (Some m, mask)
        end
    end.

End RobustModelEstimator.

(** ** An executable instance of the library

    Exact stand-ins for the functions of scikit-image, simple enough to run
    the program on concrete images: affine transformations with rational
    entries, nearest-neighbour resampling, luma weights 0.2125, 0.7154,
    0.0721, a brightness detector, border-masked binary descriptors and
    cross-checked nearest-neighbour matching. *)

Module Toy.

(** Rows [(a, b, c)] and [(d, e, f)] of the matrix; the third row is
    [(0, 0, 1)]. *)
Definition aff : Type := (row3 Qc * row3 Qc)%type.

Definition q0 : Qc := qc_of_Z 0.
Definition q1 : Qc := qc_of_Z 1.

Definition aff_params (t : aff) : mat3 fval :=
  let '((a, b, c), (d, e, f)) := t in
  ((FFin a, FFin b, FFin c), (FFin d, FFin e, FFin f),
   (FFin q0, FFin q0, FFin q1)).

Definition aff_call (t : aff) (p : point) : point :=
  let '((a, b, c), (d, e, f)) := t in
  ((a * fst p + b * snd p + c)%Qc, (d * fst p + e * snd p + f)%Qc).

(** [t + u]: first [t], then [u] *)
Definition aff_add (t u : aff) : aff :=
  let '((a, b, c), (d, e, f)) := t in
  let '((a', b', c'), (d', e', f')) := u in
  (((a' * a + b' * d)%Qc, (a' * b + b' * e)%Qc, (a' * c + b' * f + c')%Qc),
   ((d' * a + e' * d)%Qc, (d' * b + e' * e)%Qc, (d' * c + e' * f + f')%Qc)).

Definition aff_inverse (t : aff) : aff :=
  let '((a, b, c), (d, e, f)) := t in
  let det := (a * e - b * d)%Qc in
  (((e / det)%Qc, (- b / det)%Qc, ((b * f - c * e) / det)%Qc),
   ((- d / det)%Qc, (a / det)%Qc, ((c * d - a * f) / det)%Qc)).

Definition translation (p : point) : aff :=
  ((q1, q0, fst p), (q0, q1, snd p)).

Definition scale (s : Qc) : aff := ((s, q0, q0), (q0, s, q0)).

(** index of the source sample for position [i] of [n'] when the source
    has [n] samples *)
Definition source_index (i n n' : nat) : nat :=
  N.to_nat (N.of_nat i * N.of_nat n / N.of_nat n').

(** nearest-neighbour resize *)
Definition nearest_resize (im : ndarray) (shape : nat * nat) : ndarray :=
  let '(H, W) := shape in
  let '(h, w) := shape2 im in
  match im with
  | Arr2 g =>
      Arr2 (map (fun i =>
                   let r := nth (source_index i h H) g [] in
                   map (fun j => nth (source_index j w W) r q0) (seq 0 W))
              (seq 0 H))
  | Arr3 g =>
      Arr3 (map (fun i =>
                   let r := nth (source_index i h H) g [] in
                   map (fun j => nth (source_index j w W) r []) (seq 0 W))
              (seq 0 H))
  end.

(** the sample of a source of [h] rows and [w] columns nearest to
    [(x, y)], if there is one *)
Definition fetch {A : Type} (h w : nat) (g : list (list A)) (p : point)
  : option A :=
  let col := Qfloor (fst p + dec 1 2)%Qc in
  let row := Qfloor (snd p + dec 1 2)%Qc in
  if ((0 <=? col) && (col <? Z.of_nat w)
      && (0 <=? row) && (row <? Z.of_nat h))%Z
  then match nth_error g (Z.to_nat row) with
       | Some r => nth_error r (Z.to_nat col)
       | None => None
       end
  else None.

Definition channels (g : grid3) : nat := length (hd [] (hd [] g)).

(** nearest-neighbour warp; a sample outside the source is [cval] *)
Definition nearest_warp (im : ndarray) (inv : aff) (shape : Z * Z) (cval : Qc)
  : ndarray :=
  let H := Z.to_nat (fst shape) in
  let W := Z.to_nat (snd shape) in
  let h := fst (shape2 im) in
  let w := snd (shape2 im) in
  let src (row col : nat) := aff_call inv (qc_of_nat col, qc_of_nat row) in
  match im with
  | Arr2 g =>
      Arr2 (map (fun row =>
                   map (fun col =>
                          match fetch h w g (src row col) with
                          | Some x => x
                          | None => cval
                          end) (seq 0 W))
              (seq 0 H))
  | Arr3 g =>
      Arr3 (map (fun row =>
                   map (fun col =>
                          match fetch h w g (src row col) with
                          | Some p => p
                          | None => repeat cval (channels g)
                          end) (seq 0 W))
              (seq 0 H))
  end.

Definition luma (p : pixel) : result Qc :=
  match p with
  | [r; g; b] =>
      Ok (dec 2125 10000 * r + dec 7154 10000 * g + dec 721 10000 * b)%Qc
  | _ => Err (ValueError "the last axis must have 3 channels")
  end.

Definition luma_gray (im : ndarray) : result ndarray :=
  match im with
  | Arr2 g => Ok (Arr2 g)
  | Arr3 g => r <- mapM (mapM luma) g ;; Ok (Arr2 r)
  end.

Definition samples_of (im : ndarray) : list Qc :=
  match im with
  | Arr2 g => concat g
  | Arr3 g => concat (concat g)
  end.

Definition nd_map (f : Qc -> Qc) (im : ndarray) : ndarray :=
  match im with
  | Arr2 g => Arr2 (map (map f) g)
  | Arr3 g => Arr3 (map (map (map f)) g)
  end.

(** stretch the samples from [min, max] to [0, 1] *)
Definition stretch (im : ndarray) : ndarray :=
  match samples_of im with
  | [] => im
  | x :: l =>
      let lo := fold_left qc_min l x in
      let hi := fold_left qc_max l x in
      if Qc_eq_dec lo hi then im
      else nd_map (fun v => ((v - lo) / (hi - lo))%Qc) im
  end.

(** each sample becomes the fraction of the samples not above it *)
Definition rank_equalize (im : ndarray) : ndarray :=
  let l := samples_of im in
  nd_map (fun v =>
            (qc_of_nat (length (filter (fun u => qc_leb u v) l))
             / qc_of_nat (length l))%Qc) im.

Definition threshold_edges (im : ndarray) (sigma low high : Qc) : ndarray :=
  nd_map (fun v => if qc_leb high v then q1 else q0) im.

Definition response (im : ndarray) : ndarray := im.

Definition indexed {A : Type} (l : list A) : list (nat * A) :=
  combine (seq 0 (length l)) l.

(** the positions whose response exceeds [threshold_rel] times the maximum *)
Definition peaks (resp : ndarray) (min_distance : nat)
  (threshold_rel : Qc) : list keypoint :=
  match resp with
  | Arr3 _ => []
  | Arr2 g =>
      match concat g with
      | [] => []
      | x :: l =>
          let top := fold_left qc_max l x in
          flat_map (fun ir =>
                      flat_map (fun jv =>
                                  if qc_ltb (threshold_rel * top)%Qc (snd jv)
                                  then [(qc_of_nat (fst ir), qc_of_nat (fst jv))]
                                  else [])
                        (indexed (snd ir)))
            (indexed g)
      end
  end.

Definition at2 (im : ndarray) (row col : Z) : Qc :=
  match im with
  | Arr2 g =>
      if ((0 <=? row) && (0 <=? col))%Z
      then nth (Z.to_nat col) (nth (Z.to_nat row) g []) q0
      else q0
  | Arr3 _ => q0
  end.

(** four intensity comparisons next to the keypoint *)
Definition describe (im : ndarray) (k : keypoint) : descriptor :=
  let r := Qfloor (fst k) in
  let c := Qfloor (snd k) in
  map (fun b => qc_ltb (at2 im (r + 1) (c + b)) (at2 im r (c + b)))
    [1%Z; 2%Z; 3%Z; 4%Z].

(** does the patch around the keypoint fit into the image? *)
Definition fits (patch_size : nat) (im : ndarray) (k : keypoint) : bool :=
  let '(h, w) := shape2 im in
  let d := Z.of_nat (patch_size / 2) in
  let r := Qfloor (fst k) in
  let c := Qfloor (snd k) in
  ((d <=? r) && (r <? Z.of_nat h - d) && (d <=? c) && (c <? Z.of_nat w - d))%Z.

Definition brief (patch_size : nat) (im : ndarray)
  (keypoints : list keypoint) : result (list bool * list descriptor) :=
  Ok (map (fits patch_size im) keypoints,
      map (describe im) (filter (fits patch_size im) keypoints)).

Definition orb (n_keypoints : nat) (fast_threshold : Qc)
  (im : ndarray) : result (list keypoint * list descriptor) :=
  let kept :=
    firstn n_keypoints
      (filter (fits 3 im) (peaks im 1 fast_threshold)) in
  match kept with
  | [] => Err (ValueError "ORB found no features")
  | _ => Ok (kept, map (describe im) kept)
  end.

Fixpoint hamming (a b : descriptor) : nat :=
  match a, b with
  | x :: a', y :: b' => (if Bool.eqb x y then 0 else 1) + hamming a' b'
  | _, _ => 0
  end.

(** index of the first descriptor of [ds] nearest to [d] *)
Fixpoint nearest_from (d : descriptor) (ds : list descriptor) (i : nat)
  (best : nat * nat) : nat * nat :=
  match ds with
  | [] => best
  | x :: ds' =>
      let dist := hamming d x in
      nearest_from d ds' (S i) (if dist <? snd best then (i, dist) else best)
  end.

Definition nearest (d : descriptor) (ds : list descriptor) : option (nat * nat) :=
  match ds with
  | [] => None
  | x :: ds' => Some (nearest_from d ds' 1 (0, hamming d x))
  end.

(** nearest neighbours that agree in both directions *)
Definition cross_match (d0 d1 : list descriptor) (max_distance : Qc)
  : list (nat * nat) :=
  flat_map (fun id =>
              match nearest (snd id) d1 with
              | Some (j, dist) =>
                  match nearest (nth j d1 []) d0 with
                  | Some (i', _) =>
                      if (i' =? fst id) && qc_leb (qc_of_nat dist) max_distance
                      then [(fst id, j)] else []
                  | None => []
                  end
              | None => []
              end)
    (indexed d0).

Definition qc_abs (x : Qc) : Qc := if qc_leb q0 x then x else (- x)%Qc.

(** the translation that carries the first source point to its target *)
Definition estimate (pairs : list (point * point)) : option aff :=
  match pairs with
  | [] => None
  | (s, d) :: _ => Some (translation ((fst d - fst s)%Qc, (snd d - snd s)%Qc))
  end.

Definition residual (t : aff) (p : point * point) : Qc :=
  let q := aff_call t (fst p) in
  (qc_abs (fst q - fst (snd p)) + qc_abs (snd q - snd (snd p)))%Qc.

Definition draw (k : nat) : list nat := seq k 10.

Definition lib : skimage := {|
  transform_t := aff;
  tf_params := aff_params;
  tf_call := aff_call;
  tf_add := aff_add;
  tf_inverse := aff_inverse;
  similarity_translation := translation;
  similarity_scale := scale;
  resize := nearest_resize;
  warp := nearest_warp;
  rgb2gray := luma_gray;
  rescale_intensity := stretch;
  equalize_hist := rank_equalize;
  canny := threshold_edges;
  corner_harris := response;
  corner_peaks := peaks;
  brief_extract := brief;
  orb_detect_and_extract := orb;
  match_descriptors := cross_match;
  ransac := fit estimate residual draw
|}.

(** The library whose [ransac] returns the matrix [m] whatever the
    correspondences: its transformation objects are bare matrices. *)
Definition lib_returning (m : mat3 fval) : skimage := {|
  transform_t := mat3 fval;
  tf_params := fun t => t;
  tf_call := fun _ p => p;
  tf_add := fun t _ => t;
  tf_inverse := fun t => t;
  similarity_translation := fun _ => m;
  similarity_scale := fun _ => m;
  resize := nearest_resize;
  warp := fun im _ _ _ => im;
  rgb2gray := luma_gray;
  rescale_intensity := stretch;
  equalize_hist := rank_equalize;
  canny := threshold_edges;
  corner_harris := response;
  corner_peaks := peaks;
  brief_extract := brief;
  orb_detect_and_extract := orb;
  match_descriptors := cross_match;
  ransac := fun _ _ _ _ => Ok (Some m, [])
|}.

(** The library whose [ransac] returns [r] whatever the correspondences. *)
Definition lib_with_ransac (r : result (option (mat3 fval) * list bool))
  : skimage := {|
  transform_t := mat3 fval;
  tf_params := fun t => t;
  tf_call := fun _ p => p;
  tf_add := fun t _ => t;
  tf_inverse := fun t => t;
  similarity_translation := fun _ => aff_params (translation (q0, q0));
  similarity_scale := fun _ => aff_params (translation (q0, q0));
  resize := nearest_resize;
  warp := fun im _ _ _ => im;
  rgb2gray := luma_gray;
  rescale_intensity := stretch;
  equalize_hist := rank_equalize;
  canny := threshold_edges;
  corner_harris := response;
  corner_peaks := peaks;
  brief_extract := brief;
  orb_detect_and_extract := orb;
  match_descriptors := cross_match;
  ransac := fun _ _ _ _ => r
|}.

End Toy.

(** ** Sample inputs *)

Module Sample.

(** [CFG] with a working height of 32 rows and patches of 3 samples *)
Definition cfg : config := {|
  max_distance := max_distance CFG;
  min_distance := min_distance CFG;
  threshold_rel := threshold_rel CFG;
  patch_size := 3;
  method := method CFG;
  min_samples := min_samples CFG;
  residual_threshold := residual_threshold CFG;
  max_trials := 3;
  irr_weight := irr_weight CFG;
  downsize := 32;
  cfg_preprocess_images := cfg_preprocess_images CFG;
  model_robust_param_limits := model_robust_param_limits CFG
|}.

(** [n] bright dots in column 2, every second row from row 2 on, each
    followed by the binary code of its number in half brightness *)
Definition marks (n : nat) : list (nat * nat * Qc) :=
  flat_map (fun k =>
              (2 + 2 * k, 2, Toy.q1)
              :: flat_map (fun b => if Nat.testbit (k + 1) b
                                    then [(2 + 2 * k, 3 + b, dec 1 2)]
                                    else [])
                   [0; 1; 2; 3])
    (seq 0 n).

Definition value (n r c : nat) : Qc :=
  match find (fun m => (fst (fst m) =? r) && (snd (fst m) =? c)) (marks n) with
  | Some m => snd m
  | None => Toy.q0
  end.

Definition dots (n h w : nat) : grid2 :=
  map (fun r => map (fun c => value n r c) (seq 0 w)) (seq 0 h).

(** a visible image, 32 by 10, with twelve dots *)
Definition vis : ndarray :=
  Arr3 (map (map (fun v => [v; v; v])) (dots 12 32 10)).

(** an infrared image with three channels; the dots are in the first *)
Definition irr : ndarray :=
  Arr3 (map (map (fun v => [v; Toy.q0; Toy.q0])) (dots 12 32 10)).

(** the same scenes with four dots only *)
Definition vis_few : ndarray :=
  Arr3 (map (map (fun v => [v; v; v])) (dots 4 32 10)).

Definition irr_few : ndarray := Arr2 (dots 4 32 10).

(** a matrix whose perspective entry [2][0] is 5 *)
Definition runaway : mat3 fval :=
  ((FFin Toy.q1, FFin Toy.q0, FFin Toy.q0),
   (FFin Toy.q0, FFin Toy.q1, FFin Toy.q0),
   (FFin (qc_of_Z 5), FFin Toy.q0, FFin Toy.q1)).

(** a 2 by 2 visible image and a grey infrared image *)
Definition vis22 : grid3 :=
  [[[dec 1 10; dec 2 10; dec 3 10]; [dec 4 10; dec 5 10; dec 6 10]];
   [[dec 7 10; dec 8 10; dec 9 10]; [Toy.q1; Toy.q0; dec 1 2]]].

Definition irr22 : ndarray :=
  Arr2 [[dec 1 4; dec 1 2]; [dec 3 4; Toy.q1]].

(** a grey image of 3 rows and 5 columns *)
Definition gray35 : ndarray :=
  Arr2 [[Toy.q0; Toy.q1; Toy.q0; Toy.q1; Toy.q0];
        [Toy.q1; Toy.q0; Toy.q1; Toy.q0; Toy.q1];
        [Toy.q0; Toy.q1; Toy.q0; Toy.q1; Toy.q0]].

(** a white visible image of 500 rows and 1 column *)
Definition vis500 : ndarray := Arr3 (repeat [[Toy.q1; Toy.q1; Toy.q1]] 500).

(** an infrared image of 500 rows and 1 column: the first pixel is pure
    red, the others are pure green *)
Definition irr500 : ndarray :=
  Arr3 ([[Toy.q1; Toy.q0; Toy.q0]] :: repeat [[Toy.q0; Toy.q1; Toy.q0]] 499).

(** a shear with a shift *)
Definition shear : Toy.aff :=
  ((Toy.q1, dec 1 2, qc_of_Z (-1)), (Toy.q0, Toy.q1, dec 1 2)).

(** a grey image of 2 rows and 4 columns *)
Definition gray24 : ndarray :=
  Arr2 [[Toy.q0; Toy.q1; Toy.q0; Toy.q1]; [Toy.q1; Toy.q0; Toy.q1; Toy.q0]].

(** [cfg] with a detector name that [extract] does not know *)
Definition cfg_sift : config := {|
  max_distance := max_distance cfg;
  min_distance := min_distance cfg;
  threshold_rel := threshold_rel cfg;
  patch_size := patch_size cfg;
  method := "SIFT";
  min_samples := min_samples cfg;
  residual_threshold := residual_threshold cfg;
  max_trials := max_trials cfg;
  irr_weight := irr_weight cfg;
  downsize := downsize cfg;
  cfg_preprocess_images := cfg_preprocess_images cfg;
  model_robust_param_limits := model_robust_param_limits cfg
|}.

(** an infrared image with the dots in all three channels *)
Definition irr_white : ndarray :=
  Arr3 (map (map (fun v => [v; v; v])) (dots 12 32 10)).

(** the identity transformation *)
Definition identity : Toy.aff :=
  ((Toy.q1, Toy.q0, Toy.q0), (Toy.q0, Toy.q1, Toy.q0)).

(** the configuration with a working height of 0 *)
Definition cfg_zero : config := {|
  max_distance := max_distance cfg;
  min_distance := min_distance cfg;
  threshold_rel := threshold_rel cfg;
  patch_size := patch_size cfg;
  method := method cfg;
  min_samples := min_samples cfg;
  residual_threshold := residual_threshold cfg;
  max_trials := max_trials cfg;
  irr_weight := irr_weight cfg;
  downsize := 0;
  cfg_preprocess_images := cfg_preprocess_images cfg;
  model_robust_param_limits := model_robust_param_limits cfg
|}.

End Sample.

(** ** Vocabulary of the statements *)

(** an image of rank 2, or of rank 3 with three channels, on an [h] by [w]
    canvas *)
Definition canvas (h w : nat) (im : ndarray) : Prop :=
  match im with
  | Arr2 g => rect2 h w g
  | Arr3 g => rect3 h w 3 g
  end.

(** a grey image replicated to three channels *)
Definition replicate3 (im : ndarray) : ndarray :=
  match im with
  | Arr2 g => Arr3 (map (map (fun x => [x; x; x])) g)
  | Arr3 g => Arr3 g
  end.

Fixpoint zip_with {A B C : Type} (f : A -> B -> C) (a : list A) (b : list B)
  : list C :=
  match a, b with
  | x :: a', y :: b' => f x y :: zip_with f a' b'
  | _, _ => []
  end.

(** the pixels (grey, red, green) *)
Definition false_pixels (gray : grid2) (v : grid3) : grid3 :=
  zip_with (zip_with (fun x (p : pixel) => [x; nth 0 p 0%Qc; nth 1 p 0%Qc]))
    gray v.

(** [rgb2gray] turns an image with three channels into a grey image on the
    same canvas. *)
Definition rgb2gray_canvas (lib : skimage) : Prop :=
  forall h w g, rect3 h w 3 g ->
    exists g', rgb2gray lib (Arr3 g) = Ok (Arr2 g') /\ rect2 h w g'.

(** an entry that is not finite or lies outside [[lo, hi]] *)
Definition degenerate_entry (lo hi : Qc) (x : fval) : Prop :=
  match x with
  | FFin q => (q < lo)%Qc \/ (hi < q)%Qc
  | _ => True
  end.

(** the model [ransac] returned, if the pipeline got that far *)
Definition fitted {T : Type}
  (r : result (ndarray * ndarray * Qc * option T * list bool)) : option T :=
  match r with
  | Ok (_, _, Some m, _) => Some m
  | _ => None
  end.

(** the number of correspondence pairs handed to [ransac], if the pipeline
    got that far *)
Definition correspondences
  (r : result (ndarray * ndarray * Qc * (list point * list point)))
  : option nat :=
  match r with
  | Ok (_, _, keys) => Some (length (combine (fst keys) (snd keys)))
  | Err _ => None
  end.

(** [resize] returns an image of the requested shape, when the image has
    a row and a column and the requested height and width are positive. *)
Definition resize_shape (lib : skimage) : Prop :=
  forall im H W,
    0 < H -> 0 < W -> 0 < fst (shape2 im) -> 0 < snd (shape2 im) ->
    shape2 (resize lib im (H, W)) = (H, W).

(** Python's [round]: the nearest integer, a tie going to the even one.
    This is the rounding the specification names for the new width. *)
Definition py_round (q : Q) : Z :=
  let f := Qfloor q in
  match Qcompare (q - inject_Z f) (1 # 2) with
  | Lt => f
  | Gt => (f + 1)%Z
  | Eq => if Z.even f then f else (f + 1)%Z
  end.

(** The width the specification asks for: [round(w * H / h)]. *)
Definition rounded_width (im : ndarray) (H : nat) : Z :=
  py_round (inject_Z (Z.of_nat (snd (shape2 im)) * Z.of_nat H)
            / inject_Z (Z.of_nat (fst (shape2 im))))%Q.

(** The sentence of the specification on the resized widths *)
Definition widths_rounded (lib : skimage) (images : list ndarray) (H : nat)
  : Prop :=
  forall out, resize_images lib images (Some H) = Ok out ->
    Forall2 (fun im o => Z.of_nat (snd (shape2 o)) = rounded_width im H)
      images out.

(** the width [resize_images] computes: [w * H // h] *)
Definition floor_width (im : ndarray) (H : nat) : nat :=
  snd (shape2 im) * H / fst (shape2 im).



Definition is_ok {A : Type} (r : result A) : bool :=
  match r with
  | Ok _ => true
  | Err _ => false
  end.

(** [irr[:, :, 0]] for an image of rank 3, the image itself otherwise:
    the infrared image [warp_images] works with *)
Definition first_channel (irr : ndarray) : result ndarray :=
  match irr with
  | Arr2 _ => Ok irr
  | Arr3 _ => g <- take_channel 0 irr ;; Ok (Arr2 g)
  end.

(** the filters of [preprocess_images] that the configuration enables, in
    their order, on one grey image *)
Definition filter_chain (lib : skimage) (cfg : config) (im : ndarray)
  : ndarray :=
  let im := if normalize (cfg_preprocess_images cfg)
            then rescale_intensity lib im else im in
  let im := if equalize (cfg_preprocess_images cfg)
            then equalize_hist lib im else im in
  if edge (cfg_preprocess_images cfg)
  then canny lib im (qc_of_Z 2) (dec 5 100) (dec 1 10) else im.

(** [resize] and [warp] keep the rank of the image. *)
Definition resize_rank (lib : skimage) : Prop :=
  forall im shape, ndim (resize lib im shape) = ndim im.

Definition warp_rank (lib : skimage) : Prop :=
  forall im inv shape cval, ndim (warp lib im inv shape cval) = ndim im.

(** The sentence of the specification on grey conversion: the images
    used for matching are the two inputs, resized and then converted by
    [preprocess_images], which applies [rgb2gray] to every image of
    rank 3. *)
Definition luma_everywhere (lib : skimage) (cfg : config) (vis irr : ndarray)
  : Prop :=
  forall images s gray,
    warp_images_gray lib cfg vis irr = Ok (images, s, gray) ->
    (small <- resize_images lib [vis; irr] (Some (downsize cfg)) ;;
     preprocess_images lib cfg small) = Ok gray.

(** the first sample of the second grey copy *)
Definition probe (r : result (list ndarray)) : option Q :=
  match r with
  | Ok [_; Arr2 ((x :: _) :: _)] => Some (this x)
  | _ => None
  end.

(** the grey copies, out of the result of [warp_images_gray] *)
Definition gray_of
  (r : result (ndarray * ndarray * Qc * list ndarray)) : result (list ndarray) :=
  match r with
  | Ok (_, _, gray) => Ok gray
  | Err e => Err e
  end.

(** the corners [(0, 0)], [(0, r)], [(c, 0)], [(c, r)] of the frame of an
    image *)
Definition frame_corners (im : ndarray) : list point :=
  let '(r, c) := shape2 im in
  [(qc_of_nat 0, qc_of_nat 0); (qc_of_nat 0, qc_of_nat r);
   (qc_of_nat c, qc_of_nat 0); (qc_of_nat c, qc_of_nat r)].

(** [lo] and [hi] are the corners of the smallest box around [pts]. *)
Definition bounding_box (pts : list point) (lo hi : point) : Prop :=
  (forall p, In p pts ->
     (fst lo <= fst p)%Qc /\ (fst p <= fst hi)%Qc
     /\ (snd lo <= snd p)%Qc /\ (snd p <= snd hi)%Qc)
  /\ (exists p, In p pts /\ fst p = fst lo)
  /\ (exists p, In p pts /\ fst p = fst hi)
  /\ (exists p, In p pts /\ snd p = snd lo)
  /\ (exists p, In p pts /\ snd p = snd hi).




(** [warp] returns an image of the requested shape, when the image has a
    row and a column and the requested height and width are positive. *)
Definition warp_shape (lib : skimage) : Prop :=
  forall im inv H W cval, (0 < H)%Z -> (0 < W)%Z ->
    0 < fst (shape2 im) -> 0 < snd (shape2 im) ->
    shape2 (warp lib im inv (H, W) cval) = (Z.to_nat H, Z.to_nat W).




(** two arrays of rank 3 of the same shape *)
Definition same3 : grid3 -> grid3 -> Prop :=
  Forall2 (Forall2 (Forall2 (fun _ _ : Qc => True))).

(** the height [resize_images] resizes to: the argument, or the least
    height when the argument is missing or 0 *)
Definition target_height (images : list ndarray) (new_height : option nat)
  : result nat :=
  match new_height with
  | Some (S n) => Ok (S n)
  | _ => py_min (map (fun im => fst (shape2 im)) images)
  end.

(** [ransac] returned, and returned [None] for the model *)
Definition no_model {T : Type}
  (r : result (ndarray * ndarray * Qc * option T * list bool)) : bool :=
  match r with
  | Ok (_, _, None, _) => true
  | _ => false
  end.

(** [warp] keeps the rank and the channels of a non-empty image and
    returns it on the requested canvas. *)
Definition warp_canvas (lib : skimage) : Prop :=
  forall im inv H W cval h w,
    (0 < H)%Z -> (0 < W)%Z -> 0 < h -> 0 < w -> canvas h w im ->
    canvas (Z.to_nat H) (Z.to_nat W) (warp lib im inv (H, W) cval)
    /\ ndim (warp lib im inv (H, W) cval) = ndim im.

(** the weighted average of two arrays of rank 3, sample by sample *)
Definition blend_pixels (weight : Qc) (v g : grid3) : grid3 :=
  zip_with (zip_with (zip_with
    (fun x y => ((1 - weight) * x + weight * y)%Qc))) v g.

(** all samples lie in [[0, 1]] *)
Definition unit_sample (x : Qc) : Prop := (0 <= x)%Qc /\ (x <= 1)%Qc.

Definition unit_image (im : ndarray) : Prop :=
  match im with
  | Arr2 g => Forall (Forall unit_sample) g
  | Arr3 g => Forall (Forall (Forall unit_sample)) g
  end.



(** ** More of the program *)

(** [warp_images(vis, irr)] up to the call of [match_descriptors] (lines
    254-273 of the source): the pair, the scale, the keypoints of both
    grey copies and the matches. *)
Definition warp_images_matches (lib : skimage) (cfg : config)
  (vis irr : ndarray)
  : result (ndarray * ndarray * Qc * list (list keypoint) * list (nat * nat)) :=
  '(images, downsize_scale, images_gray) <- warp_images_gray lib cfg vis irr ;;
  '(keypoints, descriptors) <- extract lib cfg images_gray (method cfg) ;;
  _ <- py_index keypoints 0 ;;
  _ <- py_index keypoints 1 ;;
  matches <- match descriptors with
             | [d0; d1] => Ok (match_descriptors lib d0 d1 (max_distance cfg))
             | _ => Err TypeError
             end ;;
  Ok (images, downsize_scale, keypoints, matches).

(** [select_matches(keypoints, matches, min_samples=4,
    residual_threshold=3, max_trials=1000)]; [None] is a default
    argument *)
Definition select_matches (lib : skimage) (keypoints : list (list keypoint))
  (matches : list (nat * nat)) (min_samples : option nat)
  (residual_threshold : option Qc) (max_trials : option nat)
  : result (option (transform_t lib) * list bool) :=
  let min_samples := match min_samples with Some n => n | None => 4 end in
  let residual_threshold :=
    match residual_threshold with Some t => t | None => qc_of_Z 3 end in
  let max_trials := match max_trials with Some n => n | None => 1000 end in
  keypoints1 <- py_index keypoints 1 ;;
  src <- take_rows keypoints1 (map snd matches) ;;
  let src := map swap src in
  keypoints0 <- py_index keypoints 0 ;;
  dst <- take_rows keypoints0 (map fst matches) ;;
  let dst := map swap dst in
  ransac lib (src, dst) min_samples residual_threshold max_trials.

(** The files [process_pair] saves, as pairs of a file name and an image:
    [ir_stem] and [vi_stem] are [ir_path.stem] and [vi_path.stem]. *)
Definition saved_files (ir_stem vi_stem : string)
  (out : ndarray * ndarray * ndarray * ndarray) : list (string * ndarray) :=
  let '(vi_image, ir_image, blend_im, false_im) := out in
  [(ir_stem ++ "_" ++ vi_stem ++ "_vi_warp.png", vi_image);
   (ir_stem ++ "_" ++ vi_stem ++ "_ir_warp.png", ir_image);
   (ir_stem ++ "_" ++ vi_stem ++ "_blend.png", blend_im);
   (ir_stem ++ "_" ++ vi_stem ++ "_falsecolor.png", false_im)]%string.

(** [CFG["irr_weight"] = w] *)
Definition with_irr_weight (w : Qc) (cfg : config) : config := {|
  max_distance := max_distance cfg;
  min_distance := min_distance cfg;
  threshold_rel := threshold_rel cfg;
  patch_size := patch_size cfg;
  method := method cfg;
  min_samples := min_samples cfg;
  residual_threshold := residual_threshold cfg;
  max_trials := max_trials cfg;
  irr_weight := w;
  downsize := downsize cfg;
  cfg_preprocess_images := cfg_preprocess_images cfg;
  model_robust_param_limits := model_robust_param_limits cfg
|}.

(** the corner peaks [extract] detects in an image *)
Definition detected (lib : skimage) (cfg : config) (im : ndarray)
  : list keypoint :=
  corner_peaks lib (corner_harris lib im)
    (min_distance cfg) (threshold_rel cfg).

(** [resize] keeps the rank and the channels of a non-empty image and
    returns it on the requested canvas. *)
Definition resize_canvas (lib : skimage) : Prop :=
  forall im H W h w,
    0 < h -> 0 < w -> canvas h w im -> 0 < H -> 0 < W ->
    canvas H W (resize lib im (H, W))
    /\ ndim (resize lib im (H, W)) = ndim im.

(** ** Proofs *)

Unset Implicit Arguments.

(** *** Arrays *)

Lemma Forall2_shape {A B : Type} (P : A -> Prop) (Q : B -> Prop)
  (R : A -> B -> Prop) :
  (forall x y, P x -> Q y -> R x y) ->
  forall a b, length a = length b -> Forall P a -> Forall Q b -> Forall2 R a b.
Proof.
  intros HR a. induction a as [|x a IH]; intros [|y b] Hlen Ha Hb;
    simpl in Hlen; try discriminate; constructor.
  - apply HR; [inversion Ha | inversion Hb]; assumption.
  - apply IH; [lia | inversion Ha | inversion Hb]; assumption.
Qed.

Lemma Forall2_length_eq {A B : Type} (R : A -> B -> Prop) a b :
  Forall2 R a b -> length a = length b.
Proof. induction 1; simpl; congruence. Qed.

Lemma bzip_same {A : Type} (f : A -> A -> result A) a b :
  length a = length b -> bzip f a b = zipM f a b.
Proof. intros H. unfold bzip. rewrite H, Nat.eqb_refl. reflexivity. Qed.

Lemma zipM_map_l {A : Type} (f : A -> A -> result A) (g1 g2 : A -> A)
  (P : A -> A -> Prop) :
  (forall x y, P x y -> f (g1 x) (g2 y) = Ok x) ->
  forall a b, Forall2 P a b -> zipM f (map g1 a) (map g2 b) = Ok a.
Proof.
  intros Hf a b H. induction H as [|x y a b Hxy _ IH]; simpl; [reflexivity|].
  rewrite (Hf _ _ Hxy). simpl. rewrite IH. reflexivity.
Qed.

Lemma zipM_map_r {A : Type} (f : A -> A -> result A) (g1 g2 : A -> A)
  (P : A -> A -> Prop) :
  (forall x y, P x y -> f (g1 x) (g2 y) = Ok y) ->
  forall a b, Forall2 P a b -> zipM f (map g1 a) (map g2 b) = Ok b.
Proof.
  intros Hf a b H. induction H as [|x y a b Hxy _ IH]; simpl; [reflexivity|].
  rewrite (Hf _ _ Hxy). simpl. rewrite IH. reflexivity.
Qed.

Lemma bzip_map_l {A : Type} (f : A -> A -> result A) (g1 g2 : A -> A)
  (P : A -> A -> Prop) :
  (forall x y, P x y -> f (g1 x) (g2 y) = Ok x) ->
  forall a b, Forall2 P a b -> bzip f (map g1 a) (map g2 b) = Ok a.
Proof.
  intros Hf a b H. rewrite bzip_same.
  - eapply zipM_map_l; eassumption.
  - rewrite !length_map. eapply Forall2_length_eq; eassumption.
Qed.

Lemma bzip_map_r {A : Type} (f : A -> A -> result A) (g1 g2 : A -> A)
  (P : A -> A -> Prop) :
  (forall x y, P x y -> f (g1 x) (g2 y) = Ok y) ->
  forall a b, Forall2 P a b -> bzip f (map g1 a) (map g2 b) = Ok b.
Proof.
  intros Hf a b H. rewrite bzip_same.
  - eapply zipM_map_r; eassumption.
  - rewrite !length_map. eapply Forall2_length_eq; eassumption.
Qed.

Lemma rect3_same3 h w c a b : rect3 h w c a -> rect3 h w c b -> same3 a b.
Proof.
  intros [La Fa] [Lb Fb]. unfold same3.
  eapply Forall2_shape; [| transitivity h; [exact La | symmetry; exact Lb] | exact Fa | exact Fb].
  intros r s [Lr Fr] [Ls Fs].
  eapply Forall2_shape; [| transitivity w; [exact Lr | symmetry; exact Ls] | exact Fr | exact Fs].
  intros p q Lp Lq. simpl in Lp, Lq.
  eapply Forall2_shape with (P := fun _ => True) (Q := fun _ => True);
    [auto | transitivity c; [exact Lp | symmetry; exact Lq] | |]; apply Forall_forall; auto.
Qed.

Lemma add3_weight_l (s t : Qc) a b :
  (forall x y : Qc, (s * x + t * y = x)%Qc) ->
  same3 a b ->
  add3 (map (map (map (Qcmult s))) a) (map (map (map (Qcmult t))) b) = Ok a.
Proof.
  intros Hst. unfold add3, add2, add1.
  apply bzip_map_l. intros r r'. apply bzip_map_l. intros p p'.
  apply bzip_map_l. intros x y _. unfold add0. rewrite Hst. reflexivity.
Qed.

Lemma add3_weight_r (s t : Qc) a b :
  (forall x y : Qc, (s * x + t * y = y)%Qc) ->
  same3 a b ->
  add3 (map (map (map (Qcmult s))) a) (map (map (map (Qcmult t))) b) = Ok b.
Proof.
  intros Hst. unfold add3, add2, add1.
  apply bzip_map_r. intros r r'. apply bzip_map_r. intros p p'.
  apply bzip_map_r. intros x y _. unfold add0. rewrite Hst. reflexivity.
Qed.

Lemma zip3M_replicate (r : list Qc) :
  zip3M (fun p q s : pixel => Ok (p ++ q ++ s))
    (map (fun x => [x]) r) (map (fun x => [x]) r) (map (fun x => [x]) r)
  = Ok (map (fun x => [x; x; x]) r).
Proof.
  induction r as [|x r IH]; simpl; [reflexivity|]. rewrite IH. reflexivity.
Qed.

Lemma dstack_replicate (g : grid2) :
  dstack (Arr2 g) (Arr2 g) (Arr2 g) = Ok (replicate3 (Arr2 g)).
Proof.
  unfold dstack. simpl.
  assert (H : zip3M (zip3M (fun p q s : pixel => Ok (p ++ q ++ s)))
                (map (map (fun x => [x])) g) (map (map (fun x => [x])) g)
                (map (map (fun x => [x])) g)
              = Ok (map (map (fun x => [x; x; x])) g)).
  { induction g as [|r g IH]; simpl; [reflexivity|].
    rewrite zip3M_replicate. simpl. rewrite IH. reflexivity. }
  rewrite H. reflexivity.
Qed.

Lemma rect2_replicate h w g :
  rect2 h w g -> rect3 h w 3 (map (map (fun x => [x; x; x])) g).
Proof.
  intros [L F]. split; [rewrite length_map; exact L|].
  apply Forall_map. eapply Forall_impl; [|exact F].
  intros r Hr. split; [rewrite length_map; exact Hr|].
  apply Forall_map. apply Forall_forall. reflexivity.
Qed.

(** the three-channel form of the infrared image, as [blend_image] builds it *)
Lemma blend_rgb h w irr :
  canvas h w irr ->
  exists g, (if ndim irr =? 2 then dstack irr irr irr else Ok irr) = Ok (Arr3 g)
            /\ replicate3 irr = Arr3 g /\ rect3 h w 3 g.
Proof.
  destruct irr as [g|g]; simpl; intros H.
  - rewrite dstack_replicate. eexists. split; [reflexivity|].
    split; [reflexivity|]. apply rect2_replicate. exact H.
  - exists g. auto.
Qed.

(** C5.  On a common canvas, [blend_image] with weight 0 returns the
    visible image itself, whatever the infrared image holds, and with
    weight 1 it returns the infrared image replicated to three channels. *)
Theorem blend_image_weights (h w : nat) (v : grid3) (irr : ndarray) :
  rect3 h w 3 v -> canvas h w irr ->
  blend_image (Arr3 v) irr 0%Qc = Ok (Arr3 v)
  /\ blend_image (Arr3 v) irr 1%Qc = Ok (replicate3 irr).
Proof.
  intros Hv Hi. destruct (blend_rgb _ _ _ Hi) as (g & Hg & Hrep & Hrect).
  unfold blend_image. rewrite Hg, Hrep. simpl. split.
  - rewrite (add3_weight_l (1 - 0)%Qc 0%Qc v g); [reflexivity | | ].
    + intros; ring.
    + eapply rect3_same3; eassumption.
  - rewrite (add3_weight_r (1 - 1)%Qc 1%Qc v g); [reflexivity | | ].
    + intros; ring.
    + eapply rect3_same3; eassumption.
Qed.

(** *** False colour *)

Lemma mapM_map {A B : Type} (f : A -> result B) (g : A -> B) (l : list A) :
  Forall (fun x => f x = Ok (g x)) l -> mapM f l = Ok (map g l).
Proof.
  induction 1 as [|x l Hx _ IH]; simpl; [reflexivity|].
  rewrite Hx. simpl. rewrite IH. reflexivity.
Qed.

Lemma take_channel_rect h w c k (v : grid3) :
  rect3 h w c v -> k < c ->
  take_channel k (Arr3 v) = Ok (map (map (fun p : pixel => nth k p 0%Qc)) v).
Proof.
  intros [_ F] Hk. simpl. apply mapM_map.
  eapply Forall_impl; [|exact F]. intros r [_ Fr]. apply mapM_map.
  eapply Forall_impl; [|exact Fr]. intros p Hp. simpl in Hp.
  destruct (nth_error p k) as [x|] eqn:E.
  - rewrite (nth_error_nth _ _ _ E). reflexivity.
  - apply nth_error_None in E. lia.
Qed.

Lemma zip_with_length {A B C : Type} (f : A -> B -> C) a b :
  length a = length b -> length (zip_with f a b) = length a.
Proof.
  revert b. induction a as [|x a IH]; intros [|y b] H; simpl in *;
    try discriminate; [reflexivity|]. rewrite IH; [reflexivity | lia].
Qed.

Lemma zip_with_Forall {A B C : Type} (f : A -> B -> C)
  (PA : A -> Prop) (PB : B -> Prop) (P : C -> Prop) :
  (forall x y, PA x -> PB y -> P (f x y)) ->
  forall a b, Forall PA a -> Forall PB b -> Forall P (zip_with f a b).
Proof.
  intros H a. induction a as [|x a IH]; intros [|y b] Ha Hb; simpl;
    try constructor.
  - apply H; [inversion Ha | inversion Hb]; assumption.
  - apply IH; [inversion Ha | inversion Hb]; assumption.
Qed.

Lemma zip_with_map_r {A B B' C : Type} (f : A -> B -> C) (g : B' -> B) a b :
  zip_with f a (map g b) = zip_with (fun x y => f x (g y)) a b.
Proof.
  revert b. induction a as [|x a IH]; intros [|y b]; simpl; try reflexivity.
  rewrite IH. reflexivity.
Qed.

Lemma zip_with_ext {A B C : Type} (f f' : A -> B -> C) a b :
  (forall x y, f x y = f' x y) -> zip_with f a b = zip_with f' a b.
Proof.
  intros H. revert b. induction a as [|x a IH]; intros [|y b]; simpl;
    try reflexivity. rewrite H, IH. reflexivity.
Qed.

Lemma false_pixels_rect h w gray v :
  rect2 h w gray -> rect3 h w 3 v -> rect3 h w 3 (false_pixels gray v).
Proof.
  intros [Lg Fg] [Lv Fv]. split.
  - unfold false_pixels. rewrite zip_with_length; [exact Lg|].
    transitivity h; [exact Lg | symmetry; exact Lv].
  - unfold false_pixels.
    eapply zip_with_Forall; [| exact Fg | exact Fv].
    intros gr vr Hg [Hv Hp]. simpl in Hg. split.
    + rewrite zip_with_length; [exact Hg|].
      transitivity w; [exact Hg | symmetry; exact Hv].
    + eapply zip_with_Forall with (PA := fun _ => True) (PB := fun _ => True);
        [reflexivity | |]; apply Forall_forall; auto.
Qed.

(** only the first two channels of the visible image are read *)
Lemma false_pixels_firstn gray v :
  false_pixels gray (map (map (firstn 2)) v) = false_pixels gray v.
Proof.
  unfold false_pixels. rewrite zip_with_map_r. apply zip_with_ext.
  intros gr vr. rewrite zip_with_map_r. apply zip_with_ext.
  intros x p. destruct p as [|a [|b p]]; reflexivity.
Qed.

Lemma zip3M_false_row (gr : list Qc) (vr : list pixel) :
  length gr = length vr ->
  zip3M (fun p q s : pixel => Ok (p ++ q ++ s))
    (map (fun x => [x]) gr)
    (map (fun x => [x]) (map (fun p : pixel => nth 0 p 0%Qc) vr))
    (map (fun x => [x]) (map (fun p : pixel => nth 1 p 0%Qc) vr))
  = Ok (zip_with (fun x (p : pixel) => [x; nth 0 p 0%Qc; nth 1 p 0%Qc]) gr vr).
Proof.
  revert vr. induction gr as [|x gr IH]; intros [|p vr] H; simpl in *;
    try discriminate; [reflexivity|].
  rewrite IH; [reflexivity | lia].
Qed.

Lemma dstack_false h w gray v :
  rect2 h w gray -> rect3 h w 3 v ->
  dstack (Arr2 gray)
    (Arr2 (map (map (fun p : pixel => nth 0 p 0%Qc)) v))
    (Arr2 (map (map (fun p : pixel => nth 1 p 0%Qc)) v))
  = Ok (Arr3 (false_pixels gray v)).
Proof.
  intros [Lg Fg] [Lv Fv]. unfold dstack, false_pixels. simpl.
  assert (L : length gray = length v)
    by (transitivity h; [exact Lg | symmetry; exact Lv]).
  clear Lg Lv.
  match goal with |- bind ?m _ = _ =>
    assert (E : m = Ok (zip_with
                          (zip_with (fun x (p : pixel) =>
                                       [x; nth 0 p 0%Qc; nth 1 p 0%Qc]))
                          gray v)) end.
  { revert v L Fv. induction Fg as [|gr gray Hgr _ IH]; intros [|vr v] L Fv;
      simpl in *; try discriminate; [reflexivity|].
    pose proof (Forall_inv_tail Fv) as Fv'.
    destruct (Forall_inv Fv) as [Hvr Hch].
    assert (Hrow : length gr = length vr)
      by (transitivity w; [exact Hgr | symmetry; exact Hvr]).
    rewrite (zip3M_false_row gr vr Hrow).
    simpl. rewrite IH; [reflexivity | lia | exact Fv']. }
  rewrite E. reflexivity.
Qed.

Lemma false_image_eval lib h w gray v irr :
  rect2 h w gray -> rect3 h w 3 v ->
  match irr with
  | Arr2 g => gray = g
  | Arr3 _ => rgb2gray lib irr = Ok (Arr2 gray)
  end ->
  false_image lib (Arr3 v) irr = Ok (Arr3 (false_pixels gray v)).
Proof.
  intros Hg Hv Hi. unfold false_image.
  rewrite (take_channel_rect h w 3 0 v Hv) by lia.
  rewrite (take_channel_rect h w 3 1 v Hv) by lia.
  destruct irr as [g|g]; simpl.
  - subst g. eapply dstack_false; eassumption.
  - rewrite Hi. simpl. eapply dstack_false; eassumption.
Qed.

(** C4.  For a visible image with three channels and an infrared image on
    the same canvas (grey, or with three channels and then reduced by
    [rgb2gray]), [false_image] returns an image with exactly three
    channels holding, in this order, the grey infrared sample, the red
    and the green sample of the visible image.  The result does not
    depend on the blue channel: two visible images that agree on their
    first two channels give the same result. *)
Theorem false_image_channels (lib : skimage) (h w : nat) (v : grid3)
  (irr : ndarray) :
  rgb2gray_canvas lib -> rect3 h w 3 v -> canvas h w irr ->
  exists gray,
    match irr with
    | Arr2 g => gray = g
    | Arr3 _ => rgb2gray lib irr = Ok (Arr2 gray)
    end
    /\ false_image lib (Arr3 v) irr = Ok (Arr3 (false_pixels gray v))
    /\ rect3 h w 3 (false_pixels gray v)
    /\ forall v', rect3 h w 3 v' ->
         map (map (firstn 2)) v' = map (map (firstn 2)) v ->
         false_image lib (Arr3 v') irr = false_image lib (Arr3 v) irr.
Proof.
  intros Hlib Hv Hi.
  assert (G : exists gray, rect2 h w gray /\
                match irr with
                | Arr2 g => gray = g
                | Arr3 _ => rgb2gray lib irr = Ok (Arr2 gray)
                end).
  { destruct irr as [g|g]; simpl in Hi.
    - exists g. auto.
    - destruct (Hlib h w g Hi) as (g' & E & R). exists g'. auto. }
  destruct G as (gray & Rg & Eg). exists gray.
  split; [exact Eg|]. split; [eapply false_image_eval; eassumption|].
  split; [apply false_pixels_rect; assumption|].
  intros v' Hv' Hagree.
  rewrite (false_image_eval lib h w gray v' irr Rg Hv' Eg).
  rewrite (false_image_eval lib h w gray v irr Rg Hv Eg).
  rewrite <- (false_pixels_firstn gray v'), Hagree, false_pixels_firstn.
  reflexivity.
Qed.

(** *** Validity of the fitted model *)

Lemma qc_ltb_lt (a b : Qc) : qc_ltb a b = true <-> (a < b)%Qc.
Proof.
  unfold qc_ltb, Qclt. rewrite negb_true_iff. split.
  - intros H. apply Qnot_le_lt. intros L.
    apply Qle_bool_iff in L. congruence.
  - intros H. destruct (Qle_bool b a) eqn:E; [|reflexivity].
    apply Qle_bool_iff in E. exfalso. exact (Qlt_not_le _ _ H E).
Qed.

Lemma row3_all2_nth {A B : Type} (f : A -> B -> bool) (r : row3 A)
  (s : row3 B) (j : nat) :
  row3_all2 f r s = true -> f (row3_nth r j) (row3_nth s j) = true.
Proof.
  destruct r as [[a b] c], s as [[x y] z]. simpl. intros H.
  apply andb_prop in H. destruct H as [H Hc].
  apply andb_prop in H. destruct H as [Ha Hb].
  destruct j as [|[|j]]; assumption.
Qed.

Lemma row3_any_nth {A : Type} (f : A -> bool) (r : row3 A) (j : nat) :
  row3_any f r = false -> f (row3_nth r j) = false.
Proof.
  destruct r as [[a b] c]. simpl. intros H.
  apply orb_false_elim in H. destruct H as [H Hc].
  apply orb_false_elim in H. destruct H as [Ha Hb].
  destruct j as [|[|j]]; assumption.
Qed.

(** every entry of a valid model is finite and strictly inside its bounds *)
Lemma transformation_valid_entry lib cfg (m : transform_t lib) (i j : nat) :
  transformation_valid lib cfg m = true ->
  exists q, entry (tf_params lib m) i j = FFin q
            /\ (entry (fst (model_robust_param_limits cfg)) i j < q)%Qc
            /\ (q < entry (snd (model_robust_param_limits cfg)) i j)%Qc.
Proof.
  unfold transformation_valid.
  destruct (mat3_any_nan (tf_params lib m)) eqn:Hnan; [discriminate|].
  destruct (model_robust_param_limits cfg) as [mmin mmax]. simpl.
  intros H. apply andb_prop in H. destruct H as [Hgt Hlt].
  unfold mat3_all_gt in Hgt. unfold mat3_all_lt in Hlt. unfold entry.
  apply (row3_all2_nth _ _ _ i) in Hgt. apply (row3_all2_nth _ _ _ j) in Hgt.
  apply (row3_all2_nth _ _ _ i) in Hlt. apply (row3_all2_nth _ _ _ j) in Hlt.
  destruct (row3_nth (row3_nth (tf_params lib m) i) j) as [| | |q];
    simpl in Hgt, Hlt; try discriminate.
  exists q. split; [reflexivity|]. split; apply qc_ltb_lt; assumption.
Qed.

(** C2.  When the model returned by [ransac] has an entry that is NaN,
    infinite or outside the bounds configured for its position, the
    validity check fails and [warp_images] raises the "Transformation
    failed" error instead of returning warped images. *)
Theorem degenerate_model_fails (lib : skimage) (cfg : config)
  (vis irr : ndarray) (m : transform_t lib) (i j : nat) :
  fitted (warp_images_fit lib cfg vis irr) = Some m ->
  degenerate_entry (entry (fst (model_robust_param_limits cfg)) i j)
    (entry (snd (model_robust_param_limits cfg)) i j)
    (entry (tf_params lib m) i j) ->
  transformation_valid lib cfg m = false
  /\ warp_images lib cfg vis irr = Err (ValueError failed_msg).
Proof.
  intros Hfit Hbad.
  assert (Hinvalid : transformation_valid lib cfg m = false).
  { destruct (transformation_valid lib cfg m) eqn:E; [|reflexivity].
    destruct (transformation_valid_entry lib cfg m i j E) as (q & Eq & Hlo & Hhi).
    rewrite Eq in Hbad. simpl in Hbad. exfalso.
    destruct Hbad as [Hb|Hb].
    - exact (Qclt_not_le _ _ Hb (Qclt_le_weak _ _ Hlo)).
    - exact (Qclt_not_le _ _ Hb (Qclt_le_weak _ _ Hhi)). }
  split; [exact Hinvalid|].
  unfold warp_images.
  destruct (warp_images_fit lib cfg vis irr) as [[[[images s] [m'|]] inl]|e];
    simpl in Hfit; try discriminate.
  injection Hfit as ->. simpl. rewrite Hinvalid. reflexivity.
Qed.

Lemma degenerate_model_fails_witness :
  transformation_valid (Toy.lib_returning Sample.runaway) Sample.cfg
    Sample.runaway = false
  /\ warp_images (Toy.lib_returning Sample.runaway) Sample.cfg
       Sample.vis Sample.irr = Err (ValueError failed_msg).
Proof.
  apply (degenerate_model_fails (Toy.lib_returning Sample.runaway) Sample.cfg
           Sample.vis Sample.irr Sample.runaway 2 0).
  - vm_compute. reflexivity.
  - simpl. right. vm_compute. reflexivity.
Defined.

(** *** The robust fit *)

Lemma fit_few (T : Type) (est : list (point * point) -> option T)
  (res : T -> point * point -> Qc) (draw : nat -> list nat)
  (data : list point * list point) (ms : nat) (thr : Qc) (mt : nat) :
  length (combine (fst data) (snd data)) < ms ->
  fit est res draw data ms thr mt = Err InsufficientCorrespondence.
Proof.
  intros H. unfold fit. apply Nat.ltb_lt in H. rewrite H. reflexivity.
Qed.

(** C3.  With the robust fit of the specification in the place of
    [ransac]: when fewer correspondence pairs than [min_samples] reach
    the fit, it fails with InsufficientCorrespondence, and so does
    [warp_images]; no model and no image is returned. *)
Theorem fit_insufficient (lib : skimage) (cfg : config)
  (est : list (point * point) -> option (transform_t lib))
  (res : transform_t lib -> point * point -> Qc) (draw : nat -> list nat)
  (vis irr : ndarray) (n : nat) :
  (forall data ms thr mt,
     ransac lib data ms thr mt = fit est res draw data ms thr mt) ->
  correspondences (warp_images_keys lib cfg vis irr) = Some n ->
  n < min_samples cfg ->
  warp_images_fit lib cfg vis irr = Err InsufficientCorrespondence
  /\ warp_images lib cfg vis irr = Err InsufficientCorrespondence.
Proof.
  intros Hlib Hn Hlt.
  assert (E : warp_images_fit lib cfg vis irr = Err InsufficientCorrespondence).
  { unfold warp_images_fit.
    destruct (warp_images_keys lib cfg vis irr) as [[[images s] keys]|e];
      simpl in Hn; [|discriminate].
    injection Hn as <-. simpl. rewrite Hlib, fit_few by exact Hlt.
    reflexivity. }
  split; [exact E|]. unfold warp_images. rewrite E. reflexivity.
Qed.

Lemma fit_insufficient_witness :
  warp_images_fit Toy.lib Sample.cfg Sample.vis_few Sample.irr_few
    = Err InsufficientCorrespondence
  /\ warp_images Toy.lib Sample.cfg Sample.vis_few Sample.irr_few
    = Err InsufficientCorrespondence.
Proof.
  eapply (fit_insufficient Toy.lib Sample.cfg Toy.estimate Toy.residual
            Toy.draw Sample.vis_few Sample.irr_few).
  - reflexivity.
  - vm_compute. reflexivity.
  - vm_compute. lia.
Defined.

(** *** The assertion of [warp_images] *)

(** C9.  Called with a visible image of rank 2, [warp_images] fails its
    assertion, whatever the infrared image, the configuration and the
    library: nothing is computed before. *)
Theorem warp_images_asserts_rank (lib : skimage) (cfg : config) (g : grid2)
  (irr : ndarray) :
  warp_images lib cfg (Arr2 g) irr = Err AssertionError.
Proof. reflexivity. Qed.

(** *** Witnesses for the compositor *)

Lemma luma_gray_canvas : rgb2gray_canvas Toy.lib.
Proof.
  intros h w g [L F]. simpl.
  exists (map (map (fun p : pixel =>
                      match p with
                      | [r; g; b] =>
                          (dec 2125 10000 * r + dec 7154 10000 * g
                           + dec 721 10000 * b)%Qc
                      | _ => 0%Qc
                      end)) g).
  split.
  - unfold Toy.luma_gray.
    rewrite (mapM_map _ (map (fun p : pixel =>
                      match p with
                      | [r; g; b] =>
                          (dec 2125 10000 * r + dec 7154 10000 * g
                           + dec 721 10000 * b)%Qc
                      | _ => 0%Qc
                      end))); [reflexivity|].
    eapply Forall_impl; [|exact F]. intros r [_ Fr]. apply mapM_map.
    eapply Forall_impl; [|exact Fr]. intros p Hp. simpl in Hp.
    destruct p as [|a [|b [|c [|d p]]]]; simpl in Hp; try discriminate.
    reflexivity.
  - split; [rewrite length_map; exact L|].
    apply Forall_map. eapply Forall_impl; [|exact F].
    intros r [Hr _]. rewrite length_map. exact Hr.
Qed.

Lemma blend_image_weights_witness :
  blend_image (Arr3 Sample.vis22) Sample.irr22 0%Qc = Ok (Arr3 Sample.vis22)
  /\ blend_image (Arr3 Sample.vis22) Sample.irr22 1%Qc
     = Ok (replicate3 Sample.irr22).
Proof.
  apply (blend_image_weights 2 2 Sample.vis22 Sample.irr22).
  - split; [reflexivity | repeat constructor].
  - split; [reflexivity | repeat constructor].
Defined.

Lemma false_image_channels_witness :
  exists gray,
    gray = [[dec 1 4; dec 1 2]; [dec 3 4; Toy.q1]]
    /\ false_image Toy.lib (Arr3 Sample.vis22) Sample.irr22
       = Ok (Arr3 (false_pixels gray Sample.vis22))
    /\ rect3 2 2 3 (false_pixels gray Sample.vis22)
    /\ forall v', rect3 2 2 3 v' ->
         map (map (firstn 2)) v' = map (map (firstn 2)) Sample.vis22 ->
         false_image Toy.lib (Arr3 v') Sample.irr22
         = false_image Toy.lib (Arr3 Sample.vis22) Sample.irr22.
Proof.
  apply (false_image_channels Toy.lib 2 2 Sample.vis22 Sample.irr22).
  - exact luma_gray_canvas.
  - split; [reflexivity | repeat constructor].
  - split; [reflexivity | repeat constructor].
Defined.

(** *** Resizing to a common height *)

Lemma Forall2_map_r {A B : Type} (P : A -> B -> Prop) (g : A -> B) l :
  Forall (fun x => P x (g x)) l -> Forall2 P l (map g l).
Proof. induction 1; simpl; constructor; assumption. Qed.

Lemma nearest_resize_shape : resize_shape Toy.lib.
Proof.
  intros im H W HH _ _ _. simpl. unfold Toy.nearest_resize.
  destruct (shape2 im) as [h w].
  destruct H as [|H]; [lia|].
  destruct im as [g|g]; simpl; rewrite !length_map, !length_seq; reflexivity.
Qed.

(** C6, as the code has it.  For images that have a row and keep a
    column at the target height [H] ([h <= w * H]), resizing gives each
    image the height [H] and the width [w * H // h], the aspect-preserving
    width rounded down: [width * h <= w * H < (width + 1) * h]. *)
Theorem resize_images_floor (lib : skimage) (images : list ndarray) (H : nat) :
  resize_shape lib -> 0 < H ->
  Forall (fun im => 0 < fst (shape2 im)
                    /\ fst (shape2 im) <= snd (shape2 im) * H) images ->
  exists out,
    resize_images lib images (Some H) = Ok out
    /\ Forall2 (fun im o =>
                  shape2 o = (H, floor_width im H)
                  /\ 0 < floor_width im H
                  /\ floor_width im H * fst (shape2 im) <= snd (shape2 im) * H
                  /\ snd (shape2 im) * H
                     < (floor_width im H + 1) * fst (shape2 im))
         images out.
Proof.
  intros Hlib HH Himgs.
  exists (map (fun im => resize lib im (H, floor_width im H)) images).
  split.
  - unfold resize_images. destruct H as [|n]; [lia|]. simpl bind.
    apply mapM_map. eapply Forall_impl; [|exact Himgs].
    intros im Him. unfold floor_width. cbv beta in Him.
    destruct Him as [Him _]. revert Him.
    destruct (shape2 im) as [h w]. simpl. intros Him.
    destruct (h =? 0) eqn:E; [apply Nat.eqb_eq in E; lia|].
    reflexivity.
  - apply Forall2_map_r. eapply Forall_impl; [|exact Himgs].
    intros im Him. cbv beta in Him. destruct Him as [Him Hw].
    assert (Hc : 0 < snd (shape2 im)) by nia.
    assert (Hq : 0 < floor_width im H)
      by (unfold floor_width; apply Nat.div_str_pos; lia).
    split; [apply Hlib; assumption|]. split; [exact Hq|].
    clear Hq Hc Hw. unfold floor_width. revert Him.
    destruct (shape2 im) as [h w]. simpl.
    intros Him. assert (Hh : h <> 0) by lia.
    pose proof (Nat.Div0.mul_div_le (w * H) h) as Hle.
    pose proof (Nat.mul_succ_div_gt (w * H) h Hh) as Hgt.
    remember (w * H / h) as q eqn:Eq. remember (w * H) as a eqn:Ea.
    clear Eq Ea. split; [rewrite Nat.mul_comm; exact Hle|].
    rewrite Nat.add_1_r, Nat.mul_comm. exact Hgt.
Qed.

Lemma resize_images_floor_witness :
  exists out,
    resize_images Toy.lib [Sample.gray35] (Some 1) = Ok out
    /\ Forall2 (fun im o =>
                  shape2 o = (1, floor_width im 1)
                  /\ 0 < floor_width im 1
                  /\ floor_width im 1 * fst (shape2 im) <= snd (shape2 im) * 1
                  /\ snd (shape2 im) * 1
                     < (floor_width im 1 + 1) * fst (shape2 im))
         [Sample.gray35] out.
Proof.
  apply (resize_images_floor Toy.lib [Sample.gray35] 1).
  - exact nearest_resize_shape.
  - lia.
  - repeat constructor; simpl; lia.
Defined.

(** C6, as the specification has it, fails: an image of 3 rows and 5
    columns resized to height 1 gets the width 5 // 3 = 1, and
    round(5 / 3) is 2. *)
Lemma widths_rounded_counterexample :
  ~ widths_rounded Toy.lib [Sample.gray35] 1.
Proof.
  intros H.
  assert (E : resize_images Toy.lib [Sample.gray35] (Some 1)
              = Ok [Toy.nearest_resize Sample.gray35 (1, 1)]) by reflexivity.
  specialize (H _ E). apply Forall2_cons_iff in H. destruct H as [Hw _].
  vm_compute in Hw. discriminate Hw.
Qed.

(** *** Feature extraction *)







(** *** The grey copies used for matching *)

Lemma resize_images_two lib (a b : ndarray) nh out :
  resize_images lib [a; b] nh = Ok out ->
  exists sa sb, out = [resize lib a sa; resize lib b sb].
Proof.
  unfold resize_images. intros H.
  destruct (match nh with Some (S n) => Ok (S n) | _ => _ end) as [H'|e];
    simpl in H; [|discriminate].
  destruct (shape2 a) as [ha wa]. destruct (shape2 b) as [hb wb].
  destruct (ha =? 0); simpl in H; [discriminate|].
  destruct (hb =? 0); simpl in H; [discriminate|].
  injection H as <-. eauto.
Qed.

Lemma preprocess_images_two lib cfg (a b : ndarray) out :
  ndim a = 3 -> ndim b = 2 ->
  preprocess_images lib cfg [a; b] = Ok out ->
  exists ga, rgb2gray lib a = Ok ga
             /\ out = [filter_chain lib cfg ga; filter_chain lib cfg b].
Proof.
  intros Ha Hb. unfold preprocess_images. simpl. rewrite Ha, Hb. simpl.
  destruct (rgb2gray lib a) as [ga|e]; simpl; [|discriminate].
  intros H. exists ga. split; [reflexivity|].
  injection H as <-. unfold filter_chain.
  destruct (normalize _), (equalize _), (edge _); reflexivity.
Qed.

Lemma first_channel_rank irr irr2 : first_channel irr = Ok irr2 -> ndim irr2 = 2.
Proof.
  destruct irr as [g|g]; simpl.
  - intros H. injection H as <-. reflexivity.
  - destruct (mapM _ g); simpl; [|discriminate].
    intros H. injection H as <-. reflexivity.
Qed.

Lemma warp_images_gray_first lib cfg vis irr :
  warp_images_gray lib cfg vis irr =
  (if negb (ndim vis =? 3) then Err AssertionError else
   irr2 <- first_channel irr ;;
   images_small <- resize_images lib [vis; irr2] (Some (downsize cfg)) ;;
   downsize_scale <-
     (if fst (shape2 vis) =? 0 then Err ZeroDivisionError
      else Ok (qc_of_nat (downsize cfg) / qc_of_nat (fst (shape2 vis)))%Qc) ;;
   images_gray <- preprocess_images lib cfg images_small ;;
   Ok (vis, irr2, downsize_scale, images_gray)).
Proof.
  unfold warp_images_gray. destruct (negb (ndim vis =? 3)); [reflexivity|].
  destruct irr as [g|g]; simpl; [reflexivity|].
  destruct (mapM _ g); reflexivity.
Qed.

(** C7, as the code has it.  The grey copies used for matching are: the
    visible image, resized and then converted by [rgb2gray]; and the
    infrared image reduced to its first channel ([irr[:, :, 0]], no luma
    weighting) when it has three channels, then resized; both followed by
    the enabled filters. *)
Theorem matching_images_gray (lib : skimage) (cfg : config) (vis irr : ndarray) :
  resize_rank lib ->
  match warp_images_gray lib cfg vis irr with
  | Ok (images, s, gray) =>
      exists irr2 vis_small irr_small vis_gray,
        first_channel irr = Ok irr2 /\ ndim irr2 = 2
        /\ images = (vis, irr2)
        /\ resize_images lib [vis; irr2] (Some (downsize cfg))
           = Ok [vis_small; irr_small]
        /\ rgb2gray lib vis_small = Ok vis_gray
        /\ gray = [filter_chain lib cfg vis_gray; filter_chain lib cfg irr_small]
  | Err _ => True
  end.
Proof.
  intros Hrank. rewrite warp_images_gray_first.
  destruct (ndim vis =? 3) eqn:Hv; simpl; [|exact I].
  apply Nat.eqb_eq in Hv.
  destruct (first_channel irr) as [irr2|e] eqn:E1; simpl; [|exact I].
  destruct (resize_images lib [vis; irr2] _) as [small|e] eqn:E2; simpl;
    [|exact I].
  destruct (fst (shape2 vis) =? 0); simpl; [exact I|].
  destruct (preprocess_images lib cfg small) as [gray|e] eqn:E3; simpl;
    [|exact I].
  destruct (resize_images_two _ _ _ _ _ E2) as (sa & sb & ->).
  apply preprocess_images_two in E3.
  - destruct E3 as (ga & Eg & ->).
    exists irr2, (resize lib vis sa), (resize lib irr2 sb), ga.
    repeat split; try assumption; try reflexivity.
    eapply first_channel_rank; eassumption.
  - rewrite Hrank. exact Hv.
  - rewrite Hrank. eapply first_channel_rank; eassumption.
Qed.

Lemma nearest_resize_rank : resize_rank Toy.lib.
Proof.
  intros im [H W]. simpl. unfold Toy.nearest_resize.
  destruct (shape2 im), im; reflexivity.
Qed.

Lemma matching_images_gray_witness :
  is_ok (warp_images_gray Toy.lib Sample.cfg Sample.vis Sample.irr) = true
  /\ match warp_images_gray Toy.lib Sample.cfg Sample.vis Sample.irr with
     | Ok (images, s, gray) =>
         exists irr2 vis_small irr_small vis_gray,
           first_channel Sample.irr = Ok irr2 /\ ndim irr2 = 2
           /\ images = (Sample.vis, irr2)
           /\ resize_images Toy.lib [Sample.vis; irr2]
                (Some (downsize Sample.cfg)) = Ok [vis_small; irr_small]
           /\ rgb2gray Toy.lib vis_small = Ok vis_gray
           /\ gray = [filter_chain Toy.lib Sample.cfg vis_gray;
                      filter_chain Toy.lib Sample.cfg irr_small]
     | Err _ => True
     end.
Proof.
  split; [vm_compute; reflexivity|].
  apply (matching_images_gray Toy.lib Sample.cfg Sample.vis Sample.irr).
  exact nearest_resize_rank.
Defined.

(** C7, as the specification has it, fails with the configuration of the
    source: the first pixel of the infrared image is pure red, so its
    first channel is the brightest sample of the image, and its luma the
    darkest. *)
Lemma luma_everywhere_counterexample :
  ~ luma_everywhere Toy.lib CFG Sample.vis500 Sample.irr500.
Proof.
  intros H.
  assert (G : gray_of (warp_images_gray Toy.lib CFG Sample.vis500 Sample.irr500)
              = (small <- resize_images Toy.lib [Sample.vis500; Sample.irr500]
                            (Some (downsize CFG)) ;;
                 preprocess_images Toy.lib CFG small)).
  { destruct (warp_images_gray Toy.lib CFG Sample.vis500 Sample.irr500)
      as [[[images s] gray]|e] eqn:E.
    - cbv beta iota delta [gray_of]. symmetry. exact (H _ _ _ E).
    - assert (R : is_ok (warp_images_gray Toy.lib CFG Sample.vis500
                           Sample.irr500) = true) by (vm_compute; reflexivity).
      rewrite E in R. discriminate R. }
  apply (f_equal probe) in G. vm_compute in G. discriminate G.
Qed.

(** *** The rank of the warped infrared image *)

Lemma bind_ok {A B : Type} (m : result A) (k : A -> result B) (b : B) :
  bind m k = Ok b -> exists a, m = Ok a /\ k a = Ok b.
Proof. destruct m as [a|e]; simpl; [eauto | discriminate]. Qed.

Lemma warp_image_rank lib (images : ndarray * ndarray) tf v i :
  warp_rank lib ->
  warp_image lib images tf = Ok (v, i) ->
  ndim v = ndim (fst images) /\ ndim i = ndim (snd images).
Proof.
  intros Hrank. unfold warp_image. destruct (shape2 (fst images)) as [r c].
  simpl. destruct (np_size (snd images) =? 0); [discriminate|].
  intros H. injection H as <- <-. split; apply Hrank.
Qed.

Lemma warp_images_gray_images lib cfg vis irr images s gray :
  warp_images_gray lib cfg vis irr = Ok (images, s, gray) ->
  exists irr2, first_channel irr = Ok irr2 /\ images = (vis, irr2).
Proof.
  rewrite warp_images_gray_first.
  destruct (negb (ndim vis =? 3)); [discriminate|]. intros H.
  apply bind_ok in H. destruct H as (irr2 & E1 & H).
  apply bind_ok in H. destruct H as (small & _ & H).
  apply bind_ok in H. destruct H as (sc & _ & H).
  apply bind_ok in H. destruct H as (g & _ & H).
  injection H as <- _ _. eauto.
Qed.

Lemma warp_images_keys_images lib cfg vis irr images s keys :
  warp_images_keys lib cfg vis irr = Ok (images, s, keys) ->
  exists gray, warp_images_gray lib cfg vis irr = Ok (images, s, gray).
Proof.
  unfold warp_images_keys. intros H.
  apply bind_ok in H. destruct H as ([[images' s'] gray] & E & H).
  apply bind_ok in H. destruct H as ([kps descs] & _ & H).
  apply bind_ok in H. destruct H as (? & _ & H).
  apply bind_ok in H. destruct H as (? & _ & H).
  apply bind_ok in H. destruct H as (matches & _ & H).
  apply bind_ok in H. destruct H as (k1 & _ & H).
  apply bind_ok in H. destruct H as (src & _ & H).
  apply bind_ok in H. destruct H as (k0 & _ & H).
  apply bind_ok in H. destruct H as (dst & _ & H).
  injection H as <- <- _. eauto.
Qed.

Lemma warp_images_fit_images lib cfg vis irr images s m inl :
  warp_images_fit lib cfg vis irr = Ok (images, s, m, inl) ->
  exists keys, warp_images_keys lib cfg vis irr = Ok (images, s, keys).
Proof.
  unfold warp_images_fit. intros H.
  apply bind_ok in H. destruct H as ([[images' s'] keys] & E & H).
  apply bind_ok in H. destruct H as ([m' inl'] & _ & H).
  injection H as <- <- _ _. eauto.
Qed.

Lemma warp_images_result lib cfg vis irr v i :
  warp_images lib cfg vis irr = Ok (v, i) ->
  exists irr2 tf,
    first_channel irr = Ok irr2 /\ warp_image lib (vis, irr2) tf = Ok (v, i).
Proof.
  unfold warp_images. intros H.
  apply bind_ok in H. destruct H as ([[[images s] m] inl] & E & H).
  apply bind_ok in H. destruct H as (m' & _ & H).
  destruct (negb (transformation_valid lib cfg m')); [discriminate|].
  apply bind_ok in H. destruct H as (S_up & _ & H).
  destruct (warp_images_fit_images _ _ _ _ _ _ _ _ E) as (keys & Ek).
  destruct (warp_images_keys_images _ _ _ _ _ _ _ Ek) as (gray & Eg).
  destruct (warp_images_gray_images _ _ _ _ _ _ _ Eg) as (irr2 & E1 & ->).
  eauto.
Qed.

(** C10.  The infrared image [warp_images] returns has rank 2: it is the
    warp of the first channel of a three-channel input, or of the grey
    input itself; so [blend_image] and [false_image] are called in
    [process_pair] with an infrared image of rank 2. *)
Theorem warped_infrared_rank (lib : skimage) (cfg : config) (vis irr : ndarray) :
  warp_rank lib ->
  match warp_images lib cfg vis irr with
  | Ok (v, i) =>
      ndim i = 2
      /\ exists irr2 tf,
           first_channel irr = Ok irr2 /\ ndim irr2 = 2
           /\ warp_image lib (vis, irr2) tf = Ok (v, i)
  | Err _ => True
  end
  /\ match process_pair lib cfg vis irr with
     | Ok (v, i, b, f) =>
         ndim i = 2
         /\ blend_image v i (dec 5 10) = Ok b
         /\ false_image lib v i = Ok f
     | Err _ => True
     end.
Proof.
  intros Hrank.
  assert (W : forall vis irr v i,
             warp_images lib cfg vis irr = Ok (v, i) ->
             ndim i = 2
             /\ exists irr2 tf,
                  first_channel irr = Ok irr2 /\ ndim irr2 = 2
                  /\ warp_image lib (vis, irr2) tf = Ok (v, i)).
  { intros vis' irr' v i H.
    destruct (warp_images_result _ _ _ _ _ _ H) as (irr2 & tf & E1 & Ew).
    pose proof (first_channel_rank _ _ E1) as R2.
    destruct (warp_image_rank _ _ _ _ _ Hrank Ew) as [_ Ri]. simpl in Ri.
    split; [congruence|]. exists irr2, tf. auto. }
  split.
  - destruct (warp_images lib cfg vis irr) as [[v i]|e] eqn:E; [|exact I].
    apply W. exact E.
  - destruct (process_pair lib cfg vis irr) as [[[[v i] b] f]|e] eqn:E;
      [|exact I].
    unfold process_pair in E.
    apply bind_ok in E. destruct E as (resized & _ & E).
    destruct resized as [|vi [|ir [|x resized]]]; try discriminate.
    apply bind_ok in E. destruct E as ([v' i'] & Ew & E).
    apply bind_ok in E. destruct E as (b' & Eb & E).
    apply bind_ok in E. destruct E as (f' & Ef & E).
    injection E as <- <- <- <-.
    destruct (W _ _ _ _ Ew) as [Ri _]. auto.
Qed.

Lemma nearest_warp_rank : warp_rank Toy.lib.
Proof. intros im inv shape cval. destruct im; reflexivity. Qed.

Lemma warped_infrared_rank_witness :
  (is_ok (warp_images Toy.lib Sample.cfg Sample.vis Sample.irr) = true
   /\ is_ok (process_pair Toy.lib Sample.cfg Sample.vis Sample.irr) = true)
  /\ (match warp_images Toy.lib Sample.cfg Sample.vis Sample.irr with
      | Ok (v, i) =>
          ndim i = 2
          /\ exists irr2 tf,
               first_channel Sample.irr = Ok irr2 /\ ndim irr2 = 2
               /\ warp_image Toy.lib (Sample.vis, irr2) tf = Ok (v, i)
      | Err _ => True
      end
      /\ match process_pair Toy.lib Sample.cfg Sample.vis Sample.irr with
         | Ok (v, i, b, f) =>
             ndim i = 2
             /\ blend_image v i (dec 5 10) = Ok b
             /\ false_image Toy.lib v i = Ok f
         | Err _ => True
         end).
Proof.
  split; [split; vm_compute; reflexivity|].
  apply (warped_infrared_rank Toy.lib Sample.cfg Sample.vis Sample.irr).
  exact nearest_warp_rank.
Defined.

(** *** The canvas of [warp_image] *)

Lemma qc_leb_le (a b : Qc) : qc_leb a b = true <-> (a <= b)%Qc.
Proof. unfold qc_leb, Qcle. apply Qle_bool_iff. Qed.

Lemma qc_leb_gt (a b : Qc) : qc_leb a b = false -> (b <= a)%Qc.
Proof.
  intros H. apply Qclt_le_weak, Qcnot_le_lt. intros L.
  apply qc_leb_le in L. congruence.
Qed.

Lemma qc_min_le_l a b : (qc_min a b <= a)%Qc.
Proof.
  unfold qc_min. destruct (qc_leb a b) eqn:E;
    [apply Qcle_refl | apply qc_leb_gt; exact E].
Qed.

Lemma qc_min_le_r a b : (qc_min a b <= b)%Qc.
Proof.
  unfold qc_min. destruct (qc_leb a b) eqn:E;
    [apply qc_leb_le; exact E | apply Qcle_refl].
Qed.

Lemma qc_min_cases a b : qc_min a b = a \/ qc_min a b = b.
Proof. unfold qc_min. destruct (qc_leb a b); auto. Qed.

Lemma qc_max_le_l a b : (a <= qc_max a b)%Qc.
Proof.
  unfold qc_max. destruct (qc_leb a b) eqn:E;
    [apply qc_leb_le; exact E | apply Qcle_refl].
Qed.

Lemma qc_max_le_r a b : (b <= qc_max a b)%Qc.
Proof.
  unfold qc_max. destruct (qc_leb a b) eqn:E;
    [apply Qcle_refl | apply qc_leb_gt; exact E].
Qed.

Lemma qc_max_cases a b : qc_max a b = a \/ qc_max a b = b.
Proof. unfold qc_max. destruct (qc_leb a b); auto. Qed.

(** a fold of [qc_min] or [qc_max] returns an extreme element *)
Lemma fold_extreme (op : Qc -> Qc -> Qc) (R : Qc -> Qc -> Prop) :
  (forall a, R a a) ->
  (forall a b c, R a b -> R b c -> R a c) ->
  (forall a b, R (op a b) a) ->
  (forall a b, R (op a b) b) ->
  (forall a b, op a b = a \/ op a b = b) ->
  forall l acc,
    R (fold_left op l acc) acc
    /\ (forall x, In x l -> R (fold_left op l acc) x)
    /\ (fold_left op l acc = acc \/ In (fold_left op l acc) l).
Proof.
  intros Hrefl Htrans Hl Hr Hc l.
  induction l as [|x l IH]; intros acc; simpl.
  - split; [apply Hrefl|]. split; [intros x []|]. left. reflexivity.
  - destruct (IH (op acc x)) as (H1 & H2 & H3). split; [|split].
    + eapply Htrans; [exact H1 | apply Hl].
    + intros y [<- | Hy]; [eapply Htrans; [exact H1 | apply Hr]|].
      apply H2. exact Hy.
    + destruct H3 as [H3|H3]; [|right; right; exact H3].
      rewrite H3. destruct (Hc acc x) as [E|E]; rewrite E; auto.
Qed.

Lemma min_axis0_fst p rest :
  fst (min_axis0 p rest) = fold_left qc_min (map fst rest) (fst p).
Proof.
  unfold min_axis0. revert p. induction rest as [|q rest IH]; intros p;
    simpl; [reflexivity|]. rewrite IH. reflexivity.
Qed.

Lemma min_axis0_snd p rest :
  snd (min_axis0 p rest) = fold_left qc_min (map snd rest) (snd p).
Proof.
  unfold min_axis0. revert p. induction rest as [|q rest IH]; intros p;
    simpl; [reflexivity|]. rewrite IH. reflexivity.
Qed.

Lemma max_axis0_fst p rest :
  fst (max_axis0 p rest) = fold_left qc_max (map fst rest) (fst p).
Proof.
  unfold max_axis0. revert p. induction rest as [|q rest IH]; intros p;
    simpl; [reflexivity|]. rewrite IH. reflexivity.
Qed.

Lemma max_axis0_snd p rest :
  snd (max_axis0 p rest) = fold_left qc_max (map snd rest) (snd p).
Proof.
  unfold max_axis0. revert p. induction rest as [|q rest IH]; intros p;
    simpl; [reflexivity|]. rewrite IH. reflexivity.
Qed.

Lemma fold_min_spec l acc :
  (fold_left qc_min l acc <= acc)%Qc
  /\ (forall x, In x l -> (fold_left qc_min l acc <= x)%Qc)
  /\ (fold_left qc_min l acc = acc \/ In (fold_left qc_min l acc) l).
Proof.
  apply (fold_extreme qc_min Qcle).
  - apply Qcle_refl.
  - apply Qcle_trans.
  - apply qc_min_le_l.
  - apply qc_min_le_r.
  - apply qc_min_cases.
Qed.

Lemma fold_max_spec l acc :
  (acc <= fold_left qc_max l acc)%Qc
  /\ (forall x, In x l -> (x <= fold_left qc_max l acc)%Qc)
  /\ (fold_left qc_max l acc = acc \/ In (fold_left qc_max l acc) l).
Proof.
  apply (fold_extreme qc_max (fun a b => (b <= a)%Qc)).
  - apply Qcle_refl.
  - intros a b c H1 H2. eapply Qcle_trans; eassumption.
  - apply qc_max_le_l.
  - apply qc_max_le_r.
  - apply qc_max_cases.
Qed.

Lemma attained {A : Type} (f : A -> Qc) (p : A) (rest : list A) (m : Qc) :
  m = f p \/ In m (map f rest) -> exists q, In q (p :: rest) /\ f q = m.
Proof.
  intros [-> | H].
  - exists p. split; [left|]; reflexivity.
  - apply in_map_iff in H. destruct H as (q & E & Hq).
    exists q. split; [right; exact Hq | exact E].
Qed.

Lemma axis0_bounding_box p rest :
  bounding_box (p :: rest) (min_axis0 p rest) (max_axis0 p rest).
Proof.
  unfold bounding_box.
  rewrite min_axis0_fst, min_axis0_snd, max_axis0_fst, max_axis0_snd.
  destruct (fold_min_spec (map fst rest) (fst p)) as (A1 & A2 & A3).
  destruct (fold_min_spec (map snd rest) (snd p)) as (B1 & B2 & B3).
  destruct (fold_max_spec (map fst rest) (fst p)) as (C1 & C2 & C3).
  destruct (fold_max_spec (map snd rest) (snd p)) as (D1 & D2 & D3).
  split; [|repeat split; apply attained; assumption].
  intros q [<- | Hq]; [auto|].
  repeat split; [apply A2 | apply C2 | apply B2 | apply D2];
    apply in_map; exact Hq.
Qed.





Lemma np_size_pos (a : ndarray) :
  0 < np_size a -> 0 < fst (shape2 a) /\ 0 < snd (shape2 a).
Proof. destruct a as [g|g]; simpl; nia. Qed.


(** the instance satisfies what the theorem asks of the library *)


Lemma nearest_warp_shape : warp_shape Toy.lib.
Proof.
  intros im inv H W cval HH HW _ _. simpl. unfold Toy.nearest_warp. simpl fst.
  simpl snd. destruct (Z.to_nat H) as [|n] eqn:E; [lia|]. rewrite <- E.
  destruct im as [g|g]; unfold shape2;
    rewrite length_map, length_seq, E; cbn [seq map hd];
    rewrite length_map, length_seq; reflexivity.
Qed.










(** ** Further properties of the program *)

(** *** [resize_images] *)

Lemma fold_min_nat (l : list nat) (acc : nat) :
  fold_left Nat.min l acc <= acc
  /\ (forall x, In x l -> fold_left Nat.min l acc <= x)
  /\ (fold_left Nat.min l acc = acc \/ In (fold_left Nat.min l acc) l).
Proof.
  revert acc. induction l as [|x l IH]; intros acc; simpl.
  - split; [lia|]. split; [intros x []|]. left. reflexivity.
  - destruct (IH (Nat.min acc x)) as (H1 & H2 & H3). split; [lia|]. split.
    + intros y [<- | Hy]; [lia|]. apply H2. exact Hy.
    + destruct H3 as [H3|H3]; [|right; right; exact H3].
      rewrite H3. destruct (Nat.min_spec acc x) as [[_ E]|[_ E]]; rewrite E;
        auto.
Qed.

Lemma py_min_spec (l : list nat) (m : nat) :
  py_min l = Ok m -> In m l /\ Forall (fun x => m <= x) l.
Proof.
  destruct l as [|x l]; simpl; [discriminate|]. intros H. injection H as <-.
  destruct (fold_min_nat l x) as (H1 & H2 & H3). split.
  - destruct H3 as [->|H3]; [left; reflexivity | right; exact H3].
  - constructor; [exact H1|]. apply Forall_forall. exact H2.
Qed.

Lemma resize_images_eval lib images nh H :
  target_height images nh = Ok H ->
  Forall (fun im => 0 < fst (shape2 im)) images ->
  resize_images lib images nh
  = Ok (map (fun im => resize lib im (H, floor_width im H)) images).
Proof.
  intros Ht Himgs. unfold resize_images. unfold target_height in Ht.
  rewrite Ht. simpl bind. apply mapM_map.
  eapply Forall_impl; [|exact Himgs].
  intros im Him. unfold floor_width. cbv beta in Him. revert Him.
  destruct (shape2 im) as [h w]. simpl. intros Him.
  destruct (h =? 0) eqn:E; [apply Nat.eqb_eq in E; lia|]. reflexivity.
Qed.

Lemma mapM_err {A B : Type} (f : A -> result B) (e : exn) (l : list A) :
  Forall (fun x => f x = Err e \/ exists y, f x = Ok y) l ->
  Exists (fun x => f x = Err e) l ->
  mapM f l = Err e.
Proof.
  induction 1 as [|x l Hx Hl IH]; intros Hex; [inversion Hex|]. simpl.
  destruct Hx as [Hx|[y Hx]]; rewrite Hx; simpl; [reflexivity|].
  rewrite IH; [reflexivity|].
  inversion Hex as [? ? Hh|? ? Ht]; subst; [congruence | exact Ht].
Qed.

(** X1.  Called without a target height, or with 0, [resize_images] brings
    every image to the least height [H] of the list, and returns one
    image per input, when every image keeps a column at that height
    ([h <= w * H]). *)
Theorem resize_images_default_height (lib : skimage) (images : list ndarray)
  (nh : option nat) (H : nat) :
  resize_shape lib -> nh = None \/ nh = Some 0 ->
  Exists (fun im => fst (shape2 im) = H) images ->
  Forall (fun im => H <= fst (shape2 im)) images ->
  0 < H ->
  Forall (fun im => fst (shape2 im) <= snd (shape2 im) * H) images ->
  exists out,
    resize_images lib images nh = Ok out
    /\ length out = length images
    /\ Forall (fun o => fst (shape2 o) = H) out.
Proof.
  intros Hlib Hnh Hex Hmin HH Hw.
  assert (Ht : target_height images nh = Ok H).
  { assert (Hm : exists m,
               py_min (map (fun im => fst (shape2 im)) images) = Ok m).
    { destruct images as [|im images]; [inversion Hex|]. simpl. eauto. }
    destruct Hm as (m & Hm). destruct (py_min_spec _ _ Hm) as [Hin Hle].
    assert (E : m = H).
    { apply Nat.le_antisymm.
      - apply Exists_exists in Hex. destruct Hex as (im0 & I0 & E0).
        rewrite Forall_map in Hle. rewrite Forall_forall in Hle.
        rewrite <- E0. apply Hle. exact I0.
      - apply in_map_iff in Hin. destruct Hin as (im1 & E1 & I1).
        rewrite Forall_forall in Hmin. rewrite <- E1. apply Hmin. exact I1. }
    subst m. unfold target_height. destruct Hnh as [-> | ->]; exact Hm. }
  assert (Hpos : Forall (fun im => 0 < fst (shape2 im)) images).
  { eapply Forall_impl; [|exact Hmin]. intros im Him. cbv beta in Him. lia. }
  exists (map (fun im => resize lib im (H, floor_width im H)) images).
  split; [exact (resize_images_eval lib images nh H Ht Hpos)|].
  split; [apply length_map|].
  apply Forall_map. rewrite Forall_forall in Hpos, Hw. apply Forall_forall.
  intros im Him. pose proof (Hpos _ Him) as Hr. pose proof (Hw _ Him) as Hc.
  cbv beta in Hr, Hc.
  rewrite (Hlib im H (floor_width im H)); [reflexivity | exact HH | | exact Hr |].
  - unfold floor_width. apply Nat.div_str_pos. lia.
  - nia.
Qed.

Lemma resize_images_default_height_witness :
  exists out,
    resize_images Toy.lib [Sample.gray35; Sample.gray24] None = Ok out
    /\ length out = 2
    /\ Forall (fun o => fst (shape2 o) = 2) out.
Proof.
  apply (resize_images_default_height Toy.lib [Sample.gray35; Sample.gray24]
           None 2).
  - exact nearest_resize_shape.
  - left. reflexivity.
  - right. left. reflexivity.
  - repeat constructor.
  - lia.
  - repeat constructor; simpl; lia.
Defined.

(** X2.  An image without rows makes [resize_images] raise
    ZeroDivisionError once the images before it in the list are resized,
    each of them having a row and keeping a column at the target height.
    Without a target height the least height is 0, and this is the case
    of an empty image at the head of the list. *)
Theorem resize_images_zero_rows (lib : skimage) (pre post : list ndarray)
  (im : ndarray) (nh : option nat) (H : nat) :
  target_height (pre ++ im :: post) nh = Ok H ->
  fst (shape2 im) = 0 ->
  Forall (fun p => 0 < fst (shape2 p)
                   /\ fst (shape2 p) <= snd (shape2 p) * H) pre ->
  resize_images lib (pre ++ im :: post) nh = Err ZeroDivisionError.
Proof.
  intros Ht Hz _. unfold resize_images. unfold target_height in Ht.
  rewrite Ht. simpl bind. apply mapM_err.
  - apply Forall_forall. intros x _. destruct (shape2 x) as [h w].
    destruct (h =? 0); eauto.
  - apply Exists_exists. exists im. split; [apply in_elt|].
    revert Hz. destruct (shape2 im) as [h w]. simpl. intros ->. reflexivity.
Qed.

Lemma resize_images_zero_rows_witness :
  resize_images Toy.lib ([Sample.gray35] ++ Arr2 [] :: [Sample.gray24])
    (Some 2)
  = Err ZeroDivisionError.
Proof.
  apply (resize_images_zero_rows Toy.lib [Sample.gray35] [Sample.gray24]
           (Arr2 []) (Some 2) 2).
  - reflexivity.
  - reflexivity.
  - repeat constructor; simpl; lia.
Defined.

(** X4.  Images with a column that already have the target height keep
    their shape. *)
Theorem resize_images_same_height (lib : skimage) (images : list ndarray)
  (H : nat) :
  resize_shape lib -> 0 < H ->
  Forall (fun im => fst (shape2 im) = H /\ 0 < snd (shape2 im)) images ->
  exists out,
    resize_images lib images (Some H) = Ok out
    /\ Forall2 (fun im o => shape2 o = shape2 im) images out.
Proof.
  intros Hlib HH Himgs. eexists. split.
  - apply (resize_images_eval lib images (Some H) H).
    + destruct H; [lia | reflexivity].
    + eapply Forall_impl; [|exact Himgs]. intros im E. cbv beta in E. lia.
  - apply Forall2_map_r. eapply Forall_impl; [|exact Himgs].
    intros im Him. cbv beta in Him. destruct Him as [Him Hc].
    assert (E : floor_width im H = snd (shape2 im))
      by (unfold floor_width; rewrite Him; apply Nat.div_mul; lia).
    rewrite E. rewrite (Hlib im H _ HH Hc) by lia.
    rewrite <- Him. destruct (shape2 im). reflexivity.
Qed.

Lemma resize_images_same_height_witness :
  exists out,
    resize_images Toy.lib [Sample.gray35] (Some 3) = Ok out
    /\ Forall2 (fun im o => shape2 o = shape2 im) [Sample.gray35] out.
Proof.
  apply (resize_images_same_height Toy.lib [Sample.gray35] 3).
  - exact nearest_resize_shape.
  - lia.
  - repeat constructor; simpl; lia.
Defined.

(** *** [transformation_valid] *)

Lemma row3_all2_intro {A B : Type} (f : A -> B -> bool) (r : row3 A)
  (s : row3 B) :
  (forall j, j < 3 -> f (row3_nth r j) (row3_nth s j) = true) ->
  row3_all2 f r s = true.
Proof.
  destruct r as [[a b] c], s as [[x y] z]. intros H.
  pose proof (H 0 ltac:(lia)) as H0. pose proof (H 1 ltac:(lia)) as H1.
  pose proof (H 2 ltac:(lia)) as H2. simpl in *.
  rewrite H0, H1, H2. reflexivity.
Qed.

Lemma row3_any_intro {A : Type} (f : A -> bool) (r : row3 A) :
  (forall j, j < 3 -> f (row3_nth r j) = false) -> row3_any f r = false.
Proof.
  destruct r as [[a b] c]. intros H.
  pose proof (H 0 ltac:(lia)) as H0. pose proof (H 1 ltac:(lia)) as H1.
  pose proof (H 2 ltac:(lia)) as H2. simpl in *.
  rewrite H0, H1, H2. reflexivity.
Qed.

(** X5.  [transformation_valid] accepts a model exactly when each of the
    nine entries of its matrix is finite and strictly between the two
    bounds of its position; an entry equal to a bound is rejected. *)
Theorem transformation_valid_iff (lib : skimage) (cfg : config)
  (m : transform_t lib) :
  transformation_valid lib cfg m = true
  <-> forall i j, i < 3 -> j < 3 ->
        exists q, entry (tf_params lib m) i j = FFin q
                  /\ (entry (fst (model_robust_param_limits cfg)) i j < q)%Qc
                  /\ (q < entry (snd (model_robust_param_limits cfg)) i j)%Qc.
Proof.
  split.
  - intros H i j _ _. apply transformation_valid_entry. exact H.
  - intros H. unfold transformation_valid.
    destruct (model_robust_param_limits cfg) as [mmin mmax]. simpl in H.
    assert (Hnan : mat3_any_nan (tf_params lib m) = false).
    { apply row3_any_intro. intros i Hi. apply row3_any_intro. intros j Hj.
      destruct (H i j Hi Hj) as (q & E & _). unfold entry in E. rewrite E.
      reflexivity. }
    rewrite Hnan. apply andb_true_intro. split.
    + apply row3_all2_intro. intros i Hi. apply row3_all2_intro.
      intros j Hj. destruct (H i j Hi Hj) as (q & E & Hlo & _).
      unfold entry in E, Hlo. rewrite E. apply qc_ltb_lt. exact Hlo.
    + apply row3_all2_intro. intros i Hi. apply row3_all2_intro.
      intros j Hj. destruct (H i j Hi Hj) as (q & E & _ & Hhi).
      unfold entry in E, Hhi. rewrite E. apply qc_ltb_lt. exact Hhi.
Qed.

(** *** Failures of [warp_images] *)

(** X6.  When [ransac] returns [None] for the model, [warp_images] ends
    with AttributeError, raised by the debug message that reads
    [model_robust.params], and not with the "Transformation failed"
    error of the validity check. *)
Theorem warp_images_no_model (lib : skimage) (cfg : config) (vis irr : ndarray) :
  no_model (warp_images_fit lib cfg vis irr) = true ->
  warp_images lib cfg vis irr = Err AttributeError.
Proof.
  unfold warp_images.
  destruct (warp_images_fit lib cfg vis irr) as [[[[images s] [m|]] inl]|e];
    simpl; try discriminate. reflexivity.
Qed.

Lemma warp_images_no_model_witness :
  warp_images (Toy.lib_with_ransac (Ok (None, []))) Sample.cfg
    Sample.vis Sample.irr = Err AttributeError.
Proof.
  apply (warp_images_no_model (Toy.lib_with_ransac (Ok (None, [])))
           Sample.cfg Sample.vis Sample.irr).
  vm_compute. reflexivity.
Defined.

Lemma extract_unknown lib cfg images method :
  method <> "ORB" -> method <> "HARRIS" ->
  extract lib cfg images method = Ok ([], []).
Proof.
  intros H1 H2. unfold extract.
  destruct (String.eqb_spec method "ORB") as [E|_]; [congruence|].
  destruct (String.eqb_spec method "HARRIS") as [E|_]; [congruence|].
  reflexivity.
Qed.

(** X7.  With a detector name other than "ORB" and "HARRIS", [extract]
    returns two empty lists instead of raising, and [warp_images], once
    the grey copies are made, ends with IndexError on [keypoints[0]]. *)
Theorem warp_images_unknown_method (lib : skimage) (cfg : config)
  (vis irr : ndarray) :
  method cfg <> "ORB" -> method cfg <> "HARRIS" ->
  is_ok (warp_images_gray lib cfg vis irr) = true ->
  (forall images, extract lib cfg images (method cfg) = Ok ([], []))
  /\ warp_images lib cfg vis irr = Err IndexError.
Proof.
  intros H1 H2 Hok. split; [intros; apply extract_unknown; assumption|].
  unfold warp_images, warp_images_fit, warp_images_keys.
  destruct (warp_images_gray lib cfg vis irr) as [[[images s] gray]|e];
    [|discriminate].
  simpl. rewrite (extract_unknown lib cfg gray (method cfg) H1 H2).
  reflexivity.
Qed.

Lemma warp_images_unknown_method_witness :
  (forall images,
     extract Toy.lib Sample.cfg_sift images (method Sample.cfg_sift)
     = Ok ([], []))
  /\ warp_images Toy.lib Sample.cfg_sift Sample.vis Sample.irr
     = Err IndexError.
Proof.
  apply (warp_images_unknown_method Toy.lib Sample.cfg_sift Sample.vis
           Sample.irr).
  - discriminate.
  - discriminate.
  - vm_compute. reflexivity.
Defined.

(** *** What [warp_images] reads of the infrared image *)

(** X8.  [warp_images] reads of the infrared image its first channel
    only: two infrared images with the same first channel give the same
    result, images and errors alike. *)
Theorem warp_images_first_channel (lib : skimage) (cfg : config)
  (vis irr irr' : ndarray) :
  first_channel irr = first_channel irr' ->
  warp_images lib cfg vis irr = warp_images lib cfg vis irr'.
Proof.
  intros H.
  assert (G : warp_images_gray lib cfg vis irr
              = warp_images_gray lib cfg vis irr')
    by (rewrite !warp_images_gray_first, H; reflexivity).
  unfold warp_images, warp_images_fit, warp_images_keys. rewrite G.
  reflexivity.
Qed.

Lemma warp_images_first_channel_witness :
  warp_images Toy.lib Sample.cfg Sample.vis Sample.irr
  = warp_images Toy.lib Sample.cfg Sample.vis Sample.irr_white.
Proof.
  apply (warp_images_first_channel Toy.lib Sample.cfg Sample.vis Sample.irr
           Sample.irr_white).
  vm_compute. reflexivity.
Defined.

(** *** The correspondences handed to [ransac] *)



(** *** The extent of the canvas of [warp_image] *)

Lemma qc_of_nat_nonneg n : (qc_of_nat 0 <= qc_of_nat n)%Qc.
Proof.
  unfold Qcle, qc_of_nat, qc_of_Z. cbn [this Q2Qc].
  rewrite !Qred_correct. unfold Qle. simpl. lia.
Qed.

Lemma qc_ceil_of_nat n : qc_ceil (qc_of_nat n) = Z.of_nat n.
Proof.
  unfold qc_ceil, qc_of_nat, qc_of_Z. cbn [this Q2Qc].
  rewrite Qred_correct. apply Qceiling_Z.
Qed.

Lemma qc_ceil_le (x y : Qc) : (x <= y)%Qc -> (qc_ceil x <= qc_ceil y)%Z.
Proof. unfold Qcle, qc_ceil. apply Qceiling_resp_le. Qed.

Lemma extent_ge lo hi n :
  (lo <= qc_of_nat 0)%Qc -> (qc_of_nat n <= hi)%Qc ->
  (Z.of_nat n <= qc_ceil (hi - lo)%Qc)%Z.
Proof.
  intros Hlo Hhi. rewrite <- (qc_ceil_of_nat n). apply qc_ceil_le.
  change (qc_of_nat 0) with 0%Qc in Hlo.
  assert (A : (hi + - 0 <= hi + - lo)%Qc)
    by (apply Qcplus_le_compat;
        [apply Qcle_refl | apply Qcopp_le_compat; exact Hlo]).
  replace (hi + - 0)%Qc with hi in A by ring.
  eapply Qcle_trans; [exact Hhi | exact A].
Qed.

(** what [warp_image] returns, and the box its canvas comes from *)
Lemma warp_image_eval lib (images : ndarray * ndarray) (model : transform_t lib) :
  0 < np_size (snd images) ->
  exists lo hi,
    bounding_box
      (map (tf_call lib model) (frame_corners (fst images))
       ++ frame_corners (fst images)) lo hi
    /\ warp_image lib images model
       = Ok (warp lib (fst images)
               (tf_inverse lib
                  (similarity_translation lib
                     ((- fst lo)%Qc, (- snd lo)%Qc)))
               (qc_ceil (snd hi - snd lo)%Qc, qc_ceil (fst hi - fst lo)%Qc)
               (qc_of_nat 0),
             warp lib (snd images)
               (tf_inverse lib
                  (tf_add lib model
                     (similarity_translation lib
                        ((- fst lo)%Qc, (- snd lo)%Qc))))
               (qc_ceil (snd hi - snd lo)%Qc, qc_ceil (fst hi - fst lo)%Qc)
               (qc_of_nat 0)).
Proof.
  intros Hs.
  assert (Hz : (np_size (snd images) =? 0) = false)
    by (apply Nat.eqb_neq; lia).
  unfold warp_image, frame_corners. rewrite Hz.
  destruct (shape2 (fst images)) as [r c].
  set (corners := [(qc_of_nat 0, qc_of_nat 0); (qc_of_nat 0, qc_of_nat r);
                   (qc_of_nat c, qc_of_nat 0); (qc_of_nat c, qc_of_nat r)]).
  set (p := tf_call lib model (qc_of_nat 0, qc_of_nat 0)).
  set (rest := [tf_call lib model (qc_of_nat 0, qc_of_nat r);
                tf_call lib model (qc_of_nat c, qc_of_nat 0);
                tf_call lib model (qc_of_nat c, qc_of_nat r)] ++ corners).
  change (map (tf_call lib model) corners ++ corners) with (p :: rest).
  exists (min_axis0 p rest), (max_axis0 p rest).
  split; [apply axis0_bounding_box | reflexivity].
Qed.

(** [warp_image] returns only when its second image is not empty *)
Lemma warp_image_ok_size lib (images : ndarray * ndarray)
  (model : transform_t lib) r :
  warp_image lib images model = Ok r -> 0 < np_size (snd images).
Proof.
  unfold warp_image. destruct (shape2 (fst images)) as [h w]. simpl.
  destruct (np_size (snd images) =? 0) eqn:E; [discriminate|].
  intros _. apply Nat.eqb_neq in E. lia.
Qed.

(** the box reaches from at most 0 to at least the extent of the frame *)
Lemma frame_in_box (im : ndarray) (others : list point) lo hi :
  bounding_box (others ++ frame_corners im) lo hi ->
  (fst lo <= qc_of_nat 0)%Qc /\ (snd lo <= qc_of_nat 0)%Qc
  /\ (qc_of_nat (snd (shape2 im)) <= fst hi)%Qc
  /\ (qc_of_nat (fst (shape2 im)) <= snd hi)%Qc.
Proof.
  intros [Hin _]. unfold frame_corners in Hin.
  destruct (shape2 im) as [r c]. cbn [fst snd].
  assert (A : In (qc_of_nat 0, qc_of_nat 0)
                (others ++ [(qc_of_nat 0, qc_of_nat 0);
                            (qc_of_nat 0, qc_of_nat r);
                            (qc_of_nat c, qc_of_nat 0);
                            (qc_of_nat c, qc_of_nat r)]))
    by (apply in_or_app; right; left; reflexivity).
  assert (B : In (qc_of_nat c, qc_of_nat r)
                (others ++ [(qc_of_nat 0, qc_of_nat 0);
                            (qc_of_nat 0, qc_of_nat r);
                            (qc_of_nat c, qc_of_nat 0);
                            (qc_of_nat c, qc_of_nat r)]))
    by (apply in_or_app; right; do 3 right; left; reflexivity).
  destruct (Hin _ A) as (X0 & _ & Y0 & _).
  destruct (Hin _ B) as (_ & Xc & _ & Yr).
  cbn [fst snd] in *. auto.
Qed.

Lemma warp_image_extent lib (images : ndarray * ndarray)
  (model : transform_t lib) w0 w1 :
  warp_shape lib ->
  0 < fst (shape2 (fst images)) -> 0 < snd (shape2 (fst images)) ->
  warp_image lib images model = Ok (w0, w1) ->
  shape2 w0 = shape2 w1
  /\ fst (shape2 (fst images)) <= fst (shape2 w0)
  /\ snd (shape2 (fst images)) <= snd (shape2 w0).
Proof.
  intros Hshape Hr Hc E.
  pose proof (warp_image_ok_size _ _ _ _ E) as Hs.
  destruct (np_size_pos _ Hs) as [Hr1 Hc1].
  destruct (warp_image_eval lib images model Hs) as (lo & hi & BB & E').
  rewrite E' in E. injection E as <- <-.
  destruct (frame_in_box _ _ _ _ BB) as (X0 & Y0 & Xc & Yr).
  pose proof (extent_ge _ _ _ Y0 Yr) as HH.
  pose proof (extent_ge _ _ _ X0 Xc) as HW.
  rewrite !Hshape by lia. cbn [fst snd]. split; [reflexivity|]. lia.
Qed.

(** X10.  The canvas [warp_image] computes is never smaller than the
    first image: for a second image that is not empty, the two returned
    images have the same height and width, at least the height and width
    of the first image. *)
Theorem warp_image_contains_frame (lib : skimage)
  (images : ndarray * ndarray) (model : transform_t lib) :
  warp_shape lib ->
  0 < fst (shape2 (fst images)) -> 0 < snd (shape2 (fst images)) ->
  0 < np_size (snd images) ->
  exists w0 w1,
    warp_image lib images model = Ok (w0, w1)
    /\ shape2 w0 = shape2 w1
    /\ fst (shape2 (fst images)) <= fst (shape2 w0)
    /\ snd (shape2 (fst images)) <= snd (shape2 w0).
Proof.
  intros Hshape Hr Hc Hs.
  destruct (warp_image_eval lib images model Hs) as (lo & hi & _ & E).
  eexists. eexists. split; [exact E|].
  eapply warp_image_extent; eassumption.
Qed.

Lemma warp_image_contains_frame_witness :
  exists w0 w1,
    warp_image Toy.lib (Arr3 Sample.vis22, Sample.gray35) Sample.shear
    = Ok (w0, w1)
    /\ shape2 w0 = shape2 w1
    /\ 2 <= fst (shape2 w0)
    /\ 2 <= snd (shape2 w0).
Proof.
  apply (warp_image_contains_frame Toy.lib (Arr3 Sample.vis22, Sample.gray35)
           Sample.shear).
  - exact nearest_warp_shape.
  - simpl. lia.
  - simpl. lia.
  - simpl. lia.
Defined.

Lemma box_of_fixed_frame (im : ndarray) lo hi :
  bounding_box (frame_corners im ++ frame_corners im) lo hi ->
  lo = (qc_of_nat 0, qc_of_nat 0)
  /\ hi = (qc_of_nat (snd (shape2 im)), qc_of_nat (fst (shape2 im))).
Proof.
  intros BB. destruct (frame_in_box _ _ _ _ BB) as (X0 & Y0 & Xc & Yr).
  destruct BB as (_ & (a & Ia & Ea) & (b & Ib & Eb) & (c & Ic & Ec)
                    & (d & Id & Ed)).
  assert (F : forall p, In p (frame_corners im ++ frame_corners im) ->
                (qc_of_nat 0 <= fst p)%Qc
                /\ (fst p <= qc_of_nat (snd (shape2 im)))%Qc
                /\ (qc_of_nat 0 <= snd p)%Qc
                /\ (snd p <= qc_of_nat (fst (shape2 im)))%Qc).
  { intros p Hp. apply in_app_or in Hp.
    assert (Hp' : In p (frame_corners im)) by (destruct Hp; assumption).
    unfold frame_corners in Hp'. destruct (shape2 im) as [r w].
    cbn [fst snd].
    destruct Hp' as [<-|[<-|[<-|[<-|[]]]]]; cbn [fst snd];
      repeat split;
      first [apply Qcle_refl | apply qc_of_nat_nonneg]. }
  destruct (F _ Ia) as (A1 & _). destruct (F _ Ib) as (_ & B2 & _).
  destruct (F _ Ic) as (_ & _ & C3 & _). destruct (F _ Id) as (_ & _ & _ & D4).
  rewrite Ea in A1. rewrite Eb in B2. rewrite Ec in C3. rewrite Ed in D4.
  destruct lo as [lx ly], hi as [hx hy]. cbn [fst snd] in *.
  split; f_equal; apply Qcle_antisym; assumption.
Qed.

(** X11.  When the model leaves the four corners of the first image where
    they are, the canvas is exactly the frame of the first image: for a
    second image that is not empty, both returned images have the height
    and width of the first. *)
Theorem warp_image_fixed_corners (lib : skimage)
  (images : ndarray * ndarray) (model : transform_t lib) :
  warp_shape lib ->
  0 < fst (shape2 (fst images)) -> 0 < snd (shape2 (fst images)) ->
  0 < np_size (snd images) ->
  (forall p, In p (frame_corners (fst images)) -> tf_call lib model p = p) ->
  exists w0 w1,
    warp_image lib images model = Ok (w0, w1)
    /\ shape2 w0 = shape2 (fst images)
    /\ shape2 w1 = shape2 (fst images).
Proof.
  intros Hshape Hr Hc Hs Hfix.
  destruct (np_size_pos _ Hs) as [Hr1 Hc1].
  destruct (warp_image_eval lib images model Hs) as (lo & hi & BB & E).
  rewrite (map_ext_in _ (fun p => p) _ Hfix), map_id in BB.
  destruct (box_of_fixed_frame _ _ _ BB) as [-> ->].
  eexists. eexists. split; [exact E|]. cbn [fst snd].
  assert (R : forall n, (qc_of_nat n - qc_of_nat 0)%Qc = qc_of_nat n)
    by (intros n; change (qc_of_nat 0) with 0%Qc; ring).
  rewrite !R, !qc_ceil_of_nat.
  rewrite !Hshape by lia. rewrite !Nat2Z.id.
  destruct (shape2 (fst images)); split; reflexivity.
Qed.

Lemma warp_image_fixed_corners_witness :
  exists w0 w1,
    warp_image Toy.lib (Arr3 Sample.vis22, Sample.gray35) Sample.identity
    = Ok (w0, w1)
    /\ shape2 w0 = shape2 (Arr3 Sample.vis22)
    /\ shape2 w1 = shape2 (Arr3 Sample.vis22).
Proof.
  apply (warp_image_fixed_corners Toy.lib (Arr3 Sample.vis22, Sample.gray35)
           Sample.identity).
  - exact nearest_warp_shape.
  - simpl. lia.
  - simpl. lia.
  - simpl. lia.
  - intros p Hp. simpl in Hp.
    destruct Hp as [<-|[<-|[<-|[<-|[]]]]]; vm_compute; reflexivity.
Defined.

(** *** The canvas of what [warp_images] returns *)

Lemma warp_images_gray_ok lib cfg vis irr v i :
  warp_images lib cfg vis irr = Ok (v, i) ->
  exists images s gray,
    warp_images_gray lib cfg vis irr = Ok (images, s, gray).
Proof.
  unfold warp_images. intros H.
  apply bind_ok in H. destruct H as ([[[images s] m] inl] & E & _).
  destruct (warp_images_fit_images _ _ _ _ _ _ _ _ E) as (keys & Ek).
  destruct (warp_images_keys_images _ _ _ _ _ _ _ Ek) as (gray & Eg).
  eauto.
Qed.

Lemma warp_images_gray_rows lib cfg vis irr r :
  warp_images_gray lib cfg vis irr = Ok r -> 0 < fst (shape2 vis).
Proof.
  rewrite warp_images_gray_first.
  destruct (negb (ndim vis =? 3)); [discriminate|]. intros H.
  apply bind_ok in H. destruct H as (irr2 & _ & H).
  apply bind_ok in H. destruct H as (small & _ & H).
  apply bind_ok in H. destruct H as (sc & E & _).
  destruct (fst (shape2 vis)); [discriminate | lia].
Qed.

(** X12.  The two images [warp_images] returns have the same height and
    width, at least those of the visible image it was given. *)
Theorem warp_images_same_canvas (lib : skimage) (cfg : config)
  (vis irr : ndarray) :
  warp_shape lib -> 0 < snd (shape2 vis) ->
  match warp_images lib cfg vis irr with
  | Ok (v, i) =>
      shape2 v = shape2 i
      /\ fst (shape2 vis) <= fst (shape2 v)
      /\ snd (shape2 vis) <= snd (shape2 v)
  | Err _ => True
  end.
Proof.
  intros Hshape Hc.
  destruct (warp_images lib cfg vis irr) as [[v i]|e] eqn:E; [|exact I].
  destruct (warp_images_gray_ok _ _ _ _ _ _ E) as (images & s & gray & Eg).
  pose proof (warp_images_gray_rows _ _ _ _ _ Eg) as Hr.
  destruct (warp_images_result _ _ _ _ _ _ E) as (irr2 & tf & _ & Ew).
  exact (warp_image_extent lib (vis, irr2) tf v i Hshape Hr Hc Ew).
Qed.

Lemma warp_images_same_canvas_witness :
  is_ok (warp_images Toy.lib Sample.cfg Sample.vis Sample.irr) = true
  /\ match warp_images Toy.lib Sample.cfg Sample.vis Sample.irr with
     | Ok (v, i) =>
         shape2 v = shape2 i
         /\ fst (shape2 Sample.vis) <= fst (shape2 v)
         /\ snd (shape2 Sample.vis) <= snd (shape2 v)
     | Err _ => True
     end.
Proof.
  split; [vm_compute; reflexivity|].
  apply (warp_images_same_canvas Toy.lib Sample.cfg Sample.vis Sample.irr).
  - exact nearest_warp_shape.
  - vm_compute. lia.
Defined.

(** *** [blend_image] on a common canvas *)

Lemma zipM_zip_with {A : Type} (f : A -> A -> result A) (g1 g2 : A -> A)
  (h : A -> A -> A) (P : A -> A -> Prop) :
  (forall x y, P x y -> f (g1 x) (g2 y) = Ok (h x y)) ->
  forall a b, Forall2 P a b ->
    zipM f (map g1 a) (map g2 b) = Ok (zip_with h a b).
Proof.
  intros Hf a b H. induction H as [|x y a b Hxy _ IH]; simpl; [reflexivity|].
  rewrite (Hf _ _ Hxy). simpl. rewrite IH. reflexivity.
Qed.

Lemma bzip_zip_with {A : Type} (f : A -> A -> result A) (g1 g2 : A -> A)
  (h : A -> A -> A) (P : A -> A -> Prop) :
  (forall x y, P x y -> f (g1 x) (g2 y) = Ok (h x y)) ->
  forall a b, Forall2 P a b ->
    bzip f (map g1 a) (map g2 b) = Ok (zip_with h a b).
Proof.
  intros Hf a b H. rewrite bzip_same.
  - eapply zipM_zip_with; eassumption.
  - rewrite !length_map. eapply Forall2_length_eq; eassumption.
Qed.

Lemma add3_scaled (s t : Qc) a b :
  same3 a b ->
  add3 (map (map (map (Qcmult s))) a) (map (map (map (Qcmult t))) b)
  = Ok (zip_with (zip_with (zip_with (fun x y => (s * x + t * y)%Qc))) a b).
Proof.
  unfold add3, add2, add1.
  apply bzip_zip_with. intros r r'. apply bzip_zip_with. intros p p'.
  apply bzip_zip_with. intros x y _. reflexivity.
Qed.

Lemma blend_pixels_rect h w weight v g :
  rect3 h w 3 v -> rect3 h w 3 g -> rect3 h w 3 (blend_pixels weight v g).
Proof.
  intros [Lv Fv] [Lg Fg]. unfold blend_pixels. split.
  - rewrite zip_with_length; [exact Lv|].
    transitivity h; [exact Lv | symmetry; exact Lg].
  - eapply zip_with_Forall; [| exact Fv | exact Fg].
    intros r r' [Lr Fr] [Lr' Fr']. split.
    + rewrite zip_with_length; [exact Lr|].
      transitivity w; [exact Lr | symmetry; exact Lr'].
    + eapply zip_with_Forall; [| exact Fr | exact Fr'].
      intros p p' Lp Lp'. cbv beta in Lp, Lp'.
      rewrite zip_with_length; [exact Lp|].
      transitivity 3; [exact Lp | symmetry; exact Lp'].
Qed.

(** the blend of two images on a common canvas, sample by sample *)
Lemma blend_image_eval h w v irr weight :
  rect3 h w 3 v -> canvas h w irr ->
  exists g,
    replicate3 irr = Arr3 g /\ rect3 h w 3 g
    /\ blend_image (Arr3 v) irr weight = Ok (Arr3 (blend_pixels weight v g)).
Proof.
  intros Hv Hi. destruct (blend_rgb _ _ _ Hi) as (g & Hg & Hrep & Hrect).
  exists g. split; [exact Hrep|]. split; [exact Hrect|].
  unfold blend_image. rewrite Hg. simpl.
  rewrite add3_scaled by (eapply rect3_same3; eassumption). reflexivity.
Qed.

Lemma convex_unit (weight x y : Qc) :
  unit_sample weight -> unit_sample x -> unit_sample y ->
  unit_sample ((1 - weight) * x + weight * y)%Qc.
Proof.
  intros [W0 W1] [X0 X1] [Y0 Y1].
  assert (V0 : (0 <= 1 - weight)%Qc).
  { unfold Qcminus. apply (proj1 (Qcle_minus_iff weight 1)). exact W1. }
  split.
  - apply Qcle_trans with (0 * x + 0 * y)%Qc.
    + assert (E : (0 * x + 0 * y = 0)%Qc) by ring. rewrite E.
      apply Qcle_refl.
    + apply Qcplus_le_compat; apply Qcmult_le_compat_r; assumption.
  - apply Qcle_trans with ((1 - weight) * 1 + weight * 1)%Qc;
      [|assert (E : ((1 - weight) * 1 + weight * 1 = 1)%Qc) by ring;
        rewrite E; apply Qcle_refl].
    apply Qcplus_le_compat.
    + rewrite (Qcmult_comm (1 - weight) x), (Qcmult_comm (1 - weight) 1).
      apply Qcmult_le_compat_r; assumption.
    + rewrite (Qcmult_comm weight y), (Qcmult_comm weight 1).
      apply Qcmult_le_compat_r; assumption.
Qed.

Lemma replicate3_unit irr g :
  unit_image irr -> replicate3 irr = Arr3 g ->
  Forall (Forall (Forall unit_sample)) g.
Proof.
  destruct irr as [a|a]; simpl; intros U E; injection E as <-; [|exact U].
  apply Forall_map. eapply Forall_impl; [|exact U]. intros r Hr.
  apply Forall_map. eapply Forall_impl; [|exact Hr]. intros x Hx.
  constructor; [exact Hx|]. constructor; [exact Hx|].
  constructor; [exact Hx|]. constructor.
Qed.

(** X13.  On a common canvas and with a weight between 0 and 1,
    [blend_image] succeeds, returns an image with three channels on the
    same canvas, and keeps the samples in the range from 0 to 1 when
    those of both inputs are. *)
Theorem blend_image_unit_interval (h w : nat) (v : grid3) (irr : ndarray)
  (weight : Qc) :
  rect3 h w 3 v -> canvas h w irr -> unit_sample weight ->
  unit_image (Arr3 v) -> unit_image irr ->
  exists b,
    blend_image (Arr3 v) irr weight = Ok (Arr3 b)
    /\ rect3 h w 3 b /\ unit_image (Arr3 b).
Proof.
  intros Hv Hi Hw Uv Ui.
  destruct (blend_image_eval h w v irr weight Hv Hi) as (g & Hrep & Hg & E).
  exists (blend_pixels weight v g). split; [exact E|].
  split; [apply blend_pixels_rect; assumption|].
  pose proof (replicate3_unit _ _ Ui Hrep) as Ug.
  simpl in Uv. unfold unit_image, blend_pixels.
  eapply zip_with_Forall; [| exact Uv | exact Ug]. intros r r' Ur Ur'.
  eapply zip_with_Forall; [| exact Ur | exact Ur']. intros p p' Up Up'.
  eapply zip_with_Forall; [| exact Up | exact Up']. intros x y Ux Uy.
  apply convex_unit; assumption.
Qed.

Lemma blend_image_unit_interval_witness :
  exists b,
    blend_image (Arr3 Sample.vis22) Sample.irr22 (dec 5 10) = Ok (Arr3 b)
    /\ rect3 2 2 3 b /\ unit_image (Arr3 b).
Proof.
  apply (blend_image_unit_interval 2 2 Sample.vis22 Sample.irr22 (dec 5 10)).
  - split; [reflexivity | repeat constructor].
  - split; [reflexivity | repeat constructor].
  - split; vm_compute; discriminate.
  - repeat constructor; vm_compute; discriminate.
  - repeat constructor; vm_compute; discriminate.
Defined.

(** *** Compositing what [warp_image] returns *)

Lemma rect3_shape2 h w c g : rect3 h w c g -> 0 < h -> shape2 (Arr3 g) = (h, w).
Proof.
  intros [L F] Hh. destruct g as [|r g]; simpl in *; [lia|].
  destruct (Forall_inv F) as [Lr _]. apply f_equal2; [exact L | exact Lr].
Qed.

Lemma rect2_shape2 h w g : rect2 h w g -> 0 < h -> shape2 (Arr2 g) = (h, w).
Proof.
  intros [L F] Hh. destruct g as [|r g]; simpl in *; [lia|].
  apply f_equal2; [exact L | exact (Forall_inv F)].
Qed.

Lemma false_image_gray_eval lib h w i v :
  rect2 h w i -> rect3 h w 3 v ->
  false_image lib (Arr3 v) (Arr2 i) = Ok (Arr3 (false_pixels i v)).
Proof.
  intros Hi Hv. apply (false_image_eval lib h w i v (Arr2 i) Hi Hv).
  reflexivity.
Qed.

Lemma warp_image_pair_canvas lib (v : grid3) (g : grid2)
  (model : transform_t lib) (r c r' c' : nat) :
  warp_canvas lib ->
  rect3 r c 3 v -> 0 < r -> 0 < c -> rect2 r' c' g -> 0 < r' -> 0 < c' ->
  exists a i H W,
    warp_image lib (Arr3 v, Arr2 g) model = Ok (Arr3 a, Arr2 i)
    /\ rect3 H W 3 a /\ rect2 H W i /\ 0 < H.
Proof.
  intros Hlib Hv Hr Hc Hg Hr' Hc'.
  assert (Hs : 0 < np_size (snd (Arr3 v, Arr2 g))).
  { pose proof (rect2_shape2 _ _ _ Hg Hr') as Sg. simpl in Sg.
    injection Sg as Sg1 Sg2. simpl. rewrite Sg1, Sg2. nia. }
  destruct (warp_image_eval lib (Arr3 v, Arr2 g) model Hs)
    as (lo & hi & BB & E).
  destruct (frame_in_box _ _ _ _ BB) as (X0 & Y0 & Xc & Yr).
  cbn [fst] in Xc, Yr. rewrite (rect3_shape2 _ _ _ _ Hv Hr) in Xc, Yr.
  cbn [fst snd] in Xc, Yr.
  pose proof (extent_ge _ _ _ Y0 Yr) as HH.
  pose proof (extent_ge _ _ _ X0 Xc) as HW.
  set (H := qc_ceil (snd hi - snd lo)%Qc) in *.
  set (W := qc_ceil (fst hi - fst lo)%Qc) in *.
  cbn [fst snd] in E.
  set (w0 := warp lib (Arr3 v) _ (H, W) _) in E.
  set (w1 := warp lib (Arr2 g) _ (H, W) _) in E.
  destruct (Hlib (Arr3 v) (tf_inverse lib
              (similarity_translation lib ((- fst lo)%Qc, (- snd lo)%Qc)))
              H W (qc_of_nat 0) r c) as [C0 R0]; try lia; [exact Hv|].
  destruct (Hlib (Arr2 g) (tf_inverse lib
              (tf_add lib model
                 (similarity_translation lib ((- fst lo)%Qc, (- snd lo)%Qc))))
              H W (qc_of_nat 0) r' c') as [C1 R1]; try lia; [exact Hg|].
  fold w0 in C0, R0. fold w1 in C1, R1.
  destruct w0 as [a|a]; [discriminate R0|].
  destruct w1 as [i|i]; [|discriminate R1].
  simpl in C0, C1.
  exists a, i, (Z.to_nat H), (Z.to_nat W).
  split; [exact E|]. split; [exact C0|]. split; [exact C1 | lia].
Qed.

(** X14.  The two images [warp_image] makes of a visible image with three
    channels and a grey infrared image can always be composited:
    [blend_image] and [false_image] succeed on them and return images
    with three channels on the canvas of the warped pair. *)
Theorem warp_image_composites (lib : skimage) (v : grid3) (g : grid2)
  (model : transform_t lib) (weight : Qc) (r c r' c' : nat) :
  warp_canvas lib ->
  rect3 r c 3 v -> 0 < r -> 0 < c -> rect2 r' c' g -> 0 < r' -> 0 < c' ->
  exists w0 w1 b f,
    warp_image lib (Arr3 v, Arr2 g) model = Ok (w0, w1)
    /\ blend_image w0 w1 weight = Ok b
    /\ false_image lib w0 w1 = Ok f
    /\ ndim b = 3 /\ ndim f = 3
    /\ shape2 w1 = shape2 w0 /\ shape2 b = shape2 w0 /\ shape2 f = shape2 w0.
Proof.
  intros Hlib Hv Hr Hc Hg Hr' Hc'.
  destruct (warp_image_pair_canvas lib v g model r c r' c'
              Hlib Hv Hr Hc Hg Hr' Hc') as (a & i & H & W & E & C0 & C1 & Hn).
  destruct (blend_image_eval _ _ a (Arr2 i) weight C0 C1) as (rgb & _ & Hrgb & Eb).
  exists (Arr3 a), (Arr2 i), (Arr3 (blend_pixels weight a rgb)),
    (Arr3 (false_pixels i a)).
  split; [exact E|]. split; [exact Eb|].
  split; [exact (false_image_gray_eval lib _ _ i a C1 C0)|].
  split; [reflexivity|]. split; [reflexivity|].
  rewrite (rect3_shape2 _ _ _ _ C0 Hn), (rect2_shape2 _ _ _ C1 Hn).
  rewrite (rect3_shape2 _ _ _ _ (blend_pixels_rect _ _ weight _ _ C0 Hrgb) Hn).
  rewrite (rect3_shape2 _ _ _ _ (false_pixels_rect _ _ _ _ C1 C0) Hn).
  repeat split.
Qed.

Lemma nth_error_rect3 h w c (g : grid3) i j r p :
  rect3 h w c g -> nth_error g i = Some r -> nth_error r j = Some p ->
  length p = c.
Proof.
  intros [_ F] Hr Hp. apply nth_error_In in Hr. apply nth_error_In in Hp.
  rewrite Forall_forall in F. destruct (F _ Hr) as [_ Fr].
  rewrite Forall_forall in Fr. exact (Fr _ Hp).
Qed.

Lemma fetch_rect3 h w c (g : grid3) h' w' q p :
  rect3 h w c g -> Toy.fetch h' w' g q = Some p -> length p = c.
Proof.
  intros Hg. unfold Toy.fetch.
  destruct (_ && _ && _ && _)%bool; [|discriminate].
  destruct (nth_error g _) as [r|] eqn:Er; [|discriminate].
  intros Hp. eapply nth_error_rect3; eassumption.
Qed.

Lemma channels_rect3 h w c (g : grid3) :
  rect3 h w c g -> 0 < h -> 0 < w -> Toy.channels g = c.
Proof.
  intros [L F] Hh Hw. unfold Toy.channels.
  destruct g as [|r g]; simpl in *; [lia|].
  destruct (Forall_inv F) as [Lr Fr].
  destruct r as [|p r]; simpl in *; [lia|]. exact (Forall_inv Fr).
Qed.

Lemma nearest_warp_canvas : warp_canvas Toy.lib.
Proof.
  intros im inv H W cval h w HH HW Hh Hw Him. simpl.
  unfold Toy.nearest_warp. cbn [fst snd].
  destruct im as [g|g]; simpl; (split; [|reflexivity]).
  - split; [rewrite length_map, length_seq; reflexivity|].
    apply Forall_map. apply Forall_forall. intros row _.
    rewrite length_map, length_seq. reflexivity.
  - split; [rewrite length_map, length_seq; reflexivity|].
    apply Forall_map. apply Forall_forall. intros row _.
    split; [rewrite length_map, length_seq; reflexivity|].
    apply Forall_map. apply Forall_forall. intros col _.
    destruct (Toy.fetch _ _ g _) as [p|] eqn:E.
    + eapply fetch_rect3; eassumption.
    + rewrite repeat_length. eapply channels_rect3; eassumption.
Qed.

Lemma warp_image_composites_witness :
  exists w0 w1 b f,
    warp_image Toy.lib (Arr3 Sample.vis22, Arr2 [[Toy.q0; Toy.q1; Toy.q0]])
      Sample.shear = Ok (w0, w1)
    /\ blend_image w0 w1 (dec 5 10) = Ok b
    /\ false_image Toy.lib w0 w1 = Ok f
    /\ ndim b = 3 /\ ndim f = 3
    /\ shape2 w1 = shape2 w0 /\ shape2 b = shape2 w0 /\ shape2 f = shape2 w0.
Proof.
  apply (warp_image_composites Toy.lib Sample.vis22 [[Toy.q0; Toy.q1; Toy.q0]]
           Sample.shear (dec 5 10) 2 2 1 3).
  - exact nearest_warp_canvas.
  - split; [reflexivity | repeat constructor].
  - lia.
  - lia.
  - split; [reflexivity | repeat constructor].
  - lia.
  - lia.
Defined.

(** *** Images on different canvases *)

Lemma bzip_mismatch {A : Type} (f : A -> A -> result A) (a b : list A) :
  length a <> length b -> length a <> 1 -> length b <> 1 ->
  bzip f a b = Err (ValueError bcast_msg).
Proof.
  intros Hab Ha Hb. unfold bzip.
  destruct (length a =? length b) eqn:E; [apply Nat.eqb_eq in E; lia|].
  destruct a as [|x [|x' a]]; destruct b as [|y [|y' b]]; simpl in *;
    try lia; reflexivity.
Qed.

(** X15.  [blend_image] of two three-channel images with different
    numbers of rows, neither of them 1, raises the broadcasting
    ValueError of numpy: nothing is cropped or padded. *)
Theorem blend_image_height_mismatch (v g : grid3) (weight : Qc) :
  length v <> length g -> length v <> 1 -> length g <> 1 ->
  blend_image (Arr3 v) (Arr3 g) weight = Err (ValueError bcast_msg).
Proof.
  intros Hvg Hv Hg. unfold blend_image. simpl. unfold add3.
  rewrite bzip_mismatch; [reflexivity | | |]; rewrite ?length_map; assumption.
Qed.

Lemma blend_image_height_mismatch_witness :
  blend_image (Arr3 Sample.vis22)
    (Arr3 (Sample.vis22 ++ Sample.vis22)) (dec 5 10)
  = Err (ValueError bcast_msg).
Proof.
  apply (blend_image_height_mismatch Sample.vis22
           (Sample.vis22 ++ Sample.vis22) (dec 5 10)); simpl; lia.
Defined.

Lemma zip3M_ok_or_err {A B : Type} (f : A -> A -> A -> result B) :
  (forall x y z, exists r, f x y z = Ok r) ->
  forall a b c,
    zip3M f a b c = Err (ValueError dstack_msg)
    \/ exists r, zip3M f a b c = Ok r.
Proof.
  intros Hf a. induction a as [|x a IH]; intros [|y b] [|z c]; simpl; eauto.
  destruct (Hf x y z) as (r & ->). simpl.
  destruct (IH b c) as [-> | (rs & ->)]; simpl; eauto.
Qed.

Lemma zip3M_mismatch {A B : Type} (f : A -> A -> A -> result B) :
  (forall x y z,
     f x y z = Err (ValueError dstack_msg) \/ exists r, f x y z = Ok r) ->
  forall a b c, length a <> length b ->
    zip3M f a b c = Err (ValueError dstack_msg).
Proof.
  intros Hf a. induction a as [|x a IH]; intros [|y b] [|z c] H; simpl in *;
    try reflexivity; try lia.
  destruct (Hf x y z) as [-> | (r & ->)]; simpl; [reflexivity|].
  rewrite IH by lia. reflexivity.
Qed.

(** X16.  [false_image] of a visible image and a grey infrared image
    with a different number of rows raises the ValueError of
    [np.dstack]. *)
Theorem false_image_height_mismatch (lib : skimage) (h w h' w' : nat)
  (v : grid3) (i : grid2) :
  rect3 h w 3 v -> rect2 h' w' i -> h <> h' ->
  false_image lib (Arr3 v) (Arr2 i) = Err (ValueError dstack_msg).
Proof.
  intros Hv Hi Hne. unfold false_image.
  rewrite (take_channel_rect h w 3 0 v Hv) by lia.
  rewrite (take_channel_rect h w 3 1 v Hv) by lia.
  unfold dstack. simpl.
  rewrite zip3M_mismatch; [reflexivity | |].
  - intros x y z. apply zip3M_ok_or_err. intros p q r. eauto.
  - rewrite !length_map. destruct Hv as [Lv _], Hi as [Li _].
    intros E. apply Hne. transitivity (length v); [symmetry; exact Lv|].
    transitivity (length i); [symmetry; exact E | exact Li].
Qed.

Lemma false_image_height_mismatch_witness :
  false_image Toy.lib (Arr3 Sample.vis22) Sample.gray35
  = Err (ValueError dstack_msg).
Proof.
  apply (false_image_height_mismatch Toy.lib 2 2 3 5 Sample.vis22).
  - split; [reflexivity | repeat constructor].
  - split; [reflexivity | repeat constructor].
  - lia.
Defined.

(** *** The channels of the false-colour image *)

Lemma map_zip_with_l {A B C : Type} (f : A -> B -> C) (g : C -> A)
  (R : A -> B -> Prop) :
  (forall x y, R x y -> g (f x y) = x) ->
  forall a b, Forall2 R a b -> map g (zip_with f a b) = a.
Proof.
  intros H a b F. induction F as [|x y a b Hxy _ IH]; simpl; [reflexivity|].
  rewrite (H _ _ Hxy), IH. reflexivity.
Qed.

Lemma map_zip_with_r {A B C D : Type} (f : A -> B -> C) (g : C -> D)
  (g' : B -> D) (R : A -> B -> Prop) :
  (forall x y, R x y -> g (f x y) = g' y) ->
  forall a b, Forall2 R a b -> map g (zip_with f a b) = map g' b.
Proof.
  intros H a b F. induction F as [|x y a b Hxy _ IH]; simpl; [reflexivity|].
  rewrite (H _ _ Hxy), IH. reflexivity.
Qed.

Lemma rect_rows h w c gray v :
  rect2 h w gray -> rect3 h w c v ->
  Forall2 (fun (gr : list Qc) (vr : list pixel) =>
             Forall2 (fun _ _ => True) gr vr) gray v.
Proof.
  intros [Lg Fg] [Lv Fv].
  eapply Forall2_shape;
    [| transitivity h; [exact Lg | symmetry; exact Lv] | exact Fg | exact Fv].
  intros gr vr Hg [Hv _]. cbv beta in Hg.
  eapply Forall2_shape with (P := fun _ => True) (Q := fun _ => True);
    [auto | transitivity w; [exact Hg | symmetry; exact Hv] | |];
    apply Forall_forall; auto.
Qed.

(** X17.  The channels of the false-colour image read back as its
    inputs: channel 0 is the grey infrared image, channel 1 the red and
    channel 2 the green channel of the visible image. *)
Theorem false_image_channels_back (lib : skimage) (h w : nat) (v : grid3)
  (gray : grid2) (irr : ndarray) :
  rect3 h w 3 v -> rect2 h w gray ->
  match irr with
  | Arr2 g => gray = g
  | Arr3 _ => rgb2gray lib irr = Ok (Arr2 gray)
  end ->
  exists f,
    false_image lib (Arr3 v) irr = Ok f
    /\ take_channel 0 f = Ok gray
    /\ take_channel 1 f = take_channel 0 (Arr3 v)
    /\ take_channel 2 f = take_channel 1 (Arr3 v).
Proof.
  intros Hv Hg Hi. exists (Arr3 (false_pixels gray v)).
  split; [exact (false_image_eval lib h w gray v irr Hg Hv Hi)|].
  pose proof (false_pixels_rect h w gray v Hg Hv) as Hf.
  rewrite !(take_channel_rect h w 3 _ _ Hf) by lia.
  rewrite !(take_channel_rect h w 3 _ _ Hv) by lia.
  pose proof (rect_rows h w 3 gray v Hg Hv) as R.
  unfold false_pixels. split; [|split]; f_equal.
  - eapply map_zip_with_l; [|exact R]. intros gr vr Hr.
    eapply map_zip_with_l; [|exact Hr]. reflexivity.
  - eapply map_zip_with_r; [|exact R]. intros gr vr Hr.
    eapply map_zip_with_r; [|exact Hr]. reflexivity.
  - eapply map_zip_with_r; [|exact R]. intros gr vr Hr.
    eapply map_zip_with_r; [|exact Hr]. reflexivity.
Qed.

Lemma false_image_channels_back_witness :
  exists f,
    false_image Toy.lib (Arr3 Sample.vis22) Sample.irr22 = Ok f
    /\ take_channel 0 f = Ok [[dec 1 4; dec 1 2]; [dec 3 4; Toy.q1]]
    /\ take_channel 1 f = take_channel 0 (Arr3 Sample.vis22)
    /\ take_channel 2 f = take_channel 1 (Arr3 Sample.vis22).
Proof.
  apply (false_image_channels_back Toy.lib 2 2 Sample.vis22
           [[dec 1 4; dec 1 2]; [dec 3 4; Toy.q1]] Sample.irr22).
  - split; [reflexivity | repeat constructor].
  - split; [reflexivity | repeat constructor].
  - reflexivity.
Defined.

(** *** The keypoints [extract] keeps *)

Lemma mask_select_incl {A : Type} (a : list A) (mask : list bool) r :
  mask_select a mask = Ok r -> incl r a /\ length r <= length a.
Proof.
  revert mask r. induction a as [|x a IH]; intros [|m mask] r H; simpl in H;
    try discriminate.
  - injection H as <-. split; [apply incl_refl | lia].
  - apply bind_ok in H. destruct H as (r' & E & H). injection H as <-.
    destruct (IH _ _ E) as [Hincl Hlen]. destruct m; simpl.
    + split; [|lia]. intros y [<- | Hy]; [left; reflexivity|].
      right. apply Hincl. exact Hy.
    + split; [|lia]. intros y Hy. right. apply Hincl. exact Hy.
Qed.

Lemma extract_loop_Forall2
  (body : ndarray -> result (list keypoint * list descriptor))
  (P : ndarray -> list keypoint -> Prop) :
  (forall im k d, body im = Ok (k, d) -> P im k) ->
  forall images kps descs,
    extract_loop body images = Ok (kps, descs) -> Forall2 P images kps.
Proof.
  intros Hbody images. induction images as [|im images IH];
    intros kps descs H; simpl in H.
  - injection H as <- <-. constructor.
  - apply bind_ok in H. destruct H as ([k d] & E & H).
    apply bind_ok in H. destruct H as ([ks ds] & E' & H).
    injection H as <- <-. constructor; [eapply Hbody; exact E|].
    eapply IH. exact E'.
Qed.

(** X18.  With Harris and BRIEF, [extract] invents no keypoint: for each
    image the keypoints returned are among the corner peaks detected in
    that image, and no more numerous. *)
Theorem extract_harris_subset (lib : skimage) (cfg : config)
  (images : list ndarray) :
  match extract lib cfg images "HARRIS" with
  | Ok (kps, descs) =>
      Forall2 (fun im k =>
                 incl k (detected lib cfg im)
                 /\ length k <= length (detected lib cfg im))
        images kps
  | Err _ => True
  end.
Proof.
  destruct (extract lib cfg images "HARRIS") as [[kps descs]|e] eqn:E;
    [|exact I].
  unfold extract in E. simpl in E.
  eapply extract_loop_Forall2; [|exact E].
  intros im k d H. cbv beta in H.
  apply bind_ok in H. destruct H as ([mask ds] & _ & H).
  apply bind_ok in H. destruct H as (kept & Em & H).
  injection H as <- _. exact (mask_select_incl _ _ _ Em).
Qed.

(** *** [select_matches] *)

(** X19.  [select_matches], called with the parameters of the
    configuration, is the fitting step of [warp_images]: the same points
    in the same order go to [ransac], and the same errors come out. *)
Theorem select_matches_is_fit_step (lib : skimage) (cfg : config)
  (vis irr : ndarray) :
  warp_images_fit lib cfg vis irr
  = ('(images, s, keypoints, matches) <- warp_images_matches lib cfg vis irr ;;
     '(model_robust, inliers) <-
       select_matches lib keypoints matches (Some (min_samples cfg))
         (Some (residual_threshold cfg)) (Some (max_trials cfg)) ;;
     Ok (images, s, model_robust, inliers)).
Proof.
  unfold warp_images_fit, warp_images_keys, warp_images_matches,
    select_matches.
  destruct (warp_images_gray lib cfg vis irr) as [[[images s] gray]|e];
    [|reflexivity].
  simpl. destruct (extract lib cfg gray (method cfg)) as [[kps descs]|e];
    [|reflexivity].
  simpl. destruct kps as [|k0 [|k1 kps]]; try reflexivity.
  simpl.
  destruct (match descs with
            | [d0; d1] => Ok (match_descriptors lib d0 d1 (max_distance cfg))
            | _ => Err TypeError
            end) as [matches|e]; [|reflexivity].
  simpl. destruct (take_rows k1 (map snd matches)) as [src|e]; [|reflexivity].
  simpl. destruct (take_rows k0 (map fst matches)) as [dst|e]; [|reflexivity].
  simpl. reflexivity.
Qed.

(** *** The configuration *)

(** X20.  The entry [irr_weight] of the configuration has no effect:
    [process_pair] returns the same images for every value of it (the
    blend is always made with the weight 0.5 written in
    [process_pair]). *)
Theorem process_pair_ignores_irr_weight (lib : skimage) (cfg : config)
  (w : Qc) (vi_image ir_image : ndarray) :
  process_pair lib (with_irr_weight w cfg) vi_image ir_image
  = process_pair lib cfg vi_image ir_image.
Proof. destruct cfg. reflexivity. Qed.

(** *** The files [process_pair] saves *)

Lemma append_prefix_inj (p a b : string) :
  (p ++ a)%string = (p ++ b)%string -> a = b.
Proof.
  induction p as [|c p IH]; simpl; intros H; [exact H|].
  injection H as H. exact (IH H).
Qed.

(** X21.  The four files [process_pair] saves have four different names,
    whatever the names of the two inputs: no saved image overwrites
    another one of the same pair. *)
Theorem saved_files_distinct (ir_stem vi_stem : string)
  (out : ndarray * ndarray * ndarray * ndarray) :
  NoDup (map fst (saved_files ir_stem vi_stem out))
  /\ map snd (saved_files ir_stem vi_stem out)
     = [fst (fst (fst out)); snd (fst (fst out)); snd (fst out); snd out].
Proof.
  destruct out as [[[v i] b] f]. simpl. split; [|reflexivity].
  assert (D : forall a b : string,
             a <> b ->
             (ir_stem ++ "_" ++ vi_stem ++ a)%string
             <> (ir_stem ++ "_" ++ vi_stem ++ b)%string).
  { intros x y Hxy E. apply Hxy.
    apply append_prefix_inj in E. apply (append_prefix_inj "_") in E.
    apply append_prefix_inj in E. exact E. }
  repeat constructor; simpl;
    repeat (let H := fresh in intros [H|H]; [revert H; apply D; discriminate|
                                             revert H]);
    intros [].
Qed.

(** *** [process_pair], from the two inputs to the four images *)

Lemma source_index_lt i n n' : i < n' -> 0 < n -> Toy.source_index i n n' < n.
Proof.
  intros Hi Hn. unfold Toy.source_index.
  assert (B : (N.of_nat i * N.of_nat n / N.of_nat n' < N.of_nat n)%N).
  { apply N.Div0.div_lt_upper_bound. nia. }
  lia.
Qed.

Lemma canvas_shape2 h w im : canvas h w im -> 0 < h -> shape2 im = (h, w).
Proof.
  destruct im as [g|g]; simpl; intros C Hh.
  - exact (rect2_shape2 _ _ _ C Hh).
  - exact (rect3_shape2 _ _ _ _ C Hh).
Qed.

Lemma nearest_resize_canvas : resize_canvas Toy.lib.
Proof.
  intros im H W h w Hh Hw C HH HW. simpl. unfold Toy.nearest_resize.
  rewrite (canvas_shape2 _ _ _ C Hh).
  destruct im as [g|g]; simpl in C |- *; (split; [|reflexivity]).
  - split; [rewrite length_map, length_seq; reflexivity|].
    apply Forall_map. apply Forall_forall. intros i _.
    rewrite length_map, length_seq. reflexivity.
  - destruct C as [L F].
    split; [rewrite length_map, length_seq; reflexivity|].
    apply Forall_map. apply Forall_forall. intros i Hi. apply in_seq in Hi.
    split; [rewrite length_map, length_seq; reflexivity|].
    assert (Hrow : In (nth (Toy.source_index i h H) g []) g).
    { apply nth_In. eapply Nat.lt_le_trans;
        [apply (source_index_lt i h H); lia|].
      apply Nat.eq_le_incl. symmetry. exact L. }
    rewrite Forall_forall in F. destruct (F _ Hrow) as [Lr Fr].
    apply Forall_map. apply Forall_forall. intros j Hj. apply in_seq in Hj.
    rewrite Forall_forall in Fr. apply Fr. apply nth_In.
    eapply Nat.lt_le_trans; [apply (source_index_lt j w W); lia|].
    apply Nat.eq_le_incl. symmetry. exact Lr.
Qed.

Lemma channel_rect2 {B : Type} h w c (f : pixel -> B) (v : grid3) :
  rect3 h w c v ->
  length (map (map f) v) = h
  /\ Forall (fun r => length r = w) (map (map f) v).
Proof.
  intros [L F]. split; [rewrite length_map; exact L|].
  apply Forall_map. eapply Forall_impl; [|exact F].
  intros r [Lr _]. rewrite length_map. exact Lr.
Qed.

Lemma first_channel_canvas h w irr irr2 :
  canvas h w irr -> first_channel irr = Ok irr2 ->
  exists g, irr2 = Arr2 g /\ rect2 h w g.
Proof.
  destruct irr as [g|g]; simpl; intros C H.
  - injection H as <-. exists g. split; [reflexivity | exact C].
  - change (mapM _ g) with (take_channel 0 (Arr3 g)) in H.
    rewrite (take_channel_rect _ _ _ 0 g C) in H by lia.
    simpl in H. injection H as <-. eexists. split; [reflexivity|].
    exact (channel_rect2 _ _ _ _ g C).
Qed.

Lemma warp_images_ok_rank lib cfg vis irr v i :
  warp_images lib cfg vis irr = Ok (v, i) -> ndim vis = 3.
Proof.
  unfold warp_images, warp_images_fit, warp_images_keys.
  rewrite warp_images_gray_first.
  destruct (ndim vis =? 3) eqn:E; simpl; [|discriminate].
  intros _. apply Nat.eqb_eq. exact E.
Qed.

(** X22.  Compositing never fails in [process_pair]: for two non-empty
    inputs whose resized copies are at least one column wide, an error of
    [process_pair] is the error of [warp_images] on the resized pair, and
    when [warp_images] succeeds the four images returned lie on the same
    canvas: the visible image, the blend and the false-colour image with
    three channels, the infrared image with one. *)
Theorem process_pair_composites (lib : skimage) (cfg : config)
  (vi ir : ndarray) (hv wv hi wi : nat) :
  resize_canvas lib -> warp_canvas lib ->
  canvas hv wv vi -> canvas hi wi ir -> 0 < hv -> 0 < hi ->
  hv <= wv * Nat.min hv hi -> hi <= wi * Nat.min hv hi ->
  match process_pair lib cfg vi ir with
  | Ok (v, i, b, f) =>
      ndim v = 3 /\ ndim i = 2 /\ ndim b = 3 /\ ndim f = 3
      /\ shape2 i = shape2 v /\ shape2 b = shape2 v /\ shape2 f = shape2 v
  | Err e =>
      warp_images lib cfg
        (resize lib vi (Nat.min hv hi, wv * Nat.min hv hi / hv))
        (resize lib ir (Nat.min hv hi, wi * Nat.min hv hi / hi)) = Err e
  end.
Proof.
  intros Hres Hwarp Cv Ci Hhv Hhi Wv Wi.
  set (mh := Nat.min hv hi) in *.
  assert (Hmh : 0 < mh) by (unfold mh; lia).
  assert (Hwv : 0 < wv) by (destruct wv; [simpl in Wv|]; lia).
  assert (Hwi : 0 < wi) by (destruct wi; [simpl in Wi|]; lia).
  assert (Wv' : 0 < wv * mh / hv) by (apply Nat.div_str_pos; lia).
  assert (Wi' : 0 < wi * mh / hi) by (apply Nat.div_str_pos; lia).
  pose proof (canvas_shape2 _ _ _ Cv Hhv) as Sv.
  pose proof (canvas_shape2 _ _ _ Ci Hhi) as Si.
  assert (R : resize_images lib [vi; ir] None
              = Ok [resize lib vi (mh, wv * mh / hv);
                    resize lib ir (mh, wi * mh / hi)]).
  { rewrite (resize_images_eval lib [vi; ir] None mh).
    - unfold floor_width. simpl. rewrite Sv, Si. reflexivity.
    - unfold target_height. simpl. rewrite Sv, Si. reflexivity.
    - repeat constructor; [rewrite Sv | rewrite Si]; simpl; lia. }
  unfold process_pair. rewrite R. simpl bind.
  set (vi' := resize lib vi (mh, wv * mh / hv)) in *.
  set (ir' := resize lib ir (mh, wi * mh / hi)) in *.
  destruct (warp_images lib cfg vi' ir') as [[v i]|e] eqn:E; simpl bind;
    [|reflexivity].
  destruct (warp_images_result _ _ _ _ _ _ E) as (irr2 & tf & E1 & E2).
  pose proof (warp_images_ok_rank _ _ _ _ _ _ E) as Rv.
  destruct (Hres vi mh (wv * mh / hv) hv wv Hhv Hwv Cv Hmh Wv') as [Cv' _].
  destruct (Hres ir mh (wi * mh / hi) hi wi Hhi Hwi Ci Hmh Wi') as [Ci' _].
  fold vi' in Cv'. fold ir' in Ci'.
  destruct (first_channel_canvas _ _ _ _ Ci' E1) as (g & -> & Cg).
  destruct vi' as [a|a]; [discriminate Rv|]. simpl in Cv'.
  destruct (warp_image_pair_canvas lib a g tf _ _ _ _
              Hwarp Cv' Hmh Wv' Cg Hmh Wi')
    as (a' & i' & H & W & E3 & C0 & C1 & Hn).
  rewrite E3 in E2. injection E2 as <- <-.
  destruct (blend_image_eval _ _ a' (Arr2 i') (dec 5 10) C0 C1)
    as (rgb & _ & Hrgb & Eb).
  rewrite Eb. simpl bind.
  rewrite (false_image_gray_eval lib _ _ i' a' C1 C0). simpl bind.
  cbv iota beta.
  split; [reflexivity|]. split; [reflexivity|].
  split; [reflexivity|]. split; [reflexivity|].
  rewrite (rect3_shape2 _ _ _ _ C0 Hn), (rect2_shape2 _ _ _ C1 Hn).
  rewrite (rect3_shape2 _ _ _ _ (blend_pixels_rect _ _ (dec 5 10) _ _ C0 Hrgb) Hn).
  rewrite (rect3_shape2 _ _ _ _ (false_pixels_rect _ _ _ _ C1 C0) Hn).
  repeat split.
Qed.

Lemma dots_rect3 n h w (f : Qc -> pixel) :
  (forall x, length (f x) = 3) ->
  rect3 h w 3 (map (map f) (Sample.dots n h w)).
Proof.
  intros Hf. unfold Sample.dots. split.
  - rewrite !length_map, length_seq. reflexivity.
  - apply Forall_map. apply Forall_map. apply Forall_forall. intros r _.
    split; [rewrite !length_map, length_seq; reflexivity|].
    apply Forall_map. apply Forall_map. apply Forall_forall.
    intros c _. apply Hf.
Qed.

Lemma process_pair_composites_witness :
  is_ok (process_pair Toy.lib Sample.cfg Sample.vis Sample.irr) = true
  /\ match process_pair Toy.lib Sample.cfg Sample.vis Sample.irr with
     | Ok (v, i, b, f) =>
         ndim v = 3 /\ ndim i = 2 /\ ndim b = 3 /\ ndim f = 3
         /\ shape2 i = shape2 v /\ shape2 b = shape2 v
         /\ shape2 f = shape2 v
     | Err e =>
         warp_images Toy.lib Sample.cfg
           (resize Toy.lib Sample.vis (Nat.min 32 32, 10 * Nat.min 32 32 / 32))
           (resize Toy.lib Sample.irr (Nat.min 32 32, 10 * Nat.min 32 32 / 32))
         = Err e
     end.
Proof.
  split; [vm_compute; reflexivity|].
  apply (process_pair_composites Toy.lib Sample.cfg Sample.vis Sample.irr
           32 10 32 10).
  - exact nearest_resize_canvas.
  - exact nearest_warp_canvas.
  - apply dots_rect3. reflexivity.
  - apply dots_rect3. reflexivity.
  - lia.
  - lia.
  - vm_compute. lia.
  - vm_compute. lia.
Defined.

(** *** A working height of 0 *)

Lemma warp_images_fit_scale lib cfg vis irr images s m inl :
  warp_images_fit lib cfg vis irr = Ok (images, s, m, inl) ->
  s = (qc_of_nat (downsize cfg) / qc_of_nat (fst (shape2 vis)))%Qc.
Proof.
  intros E.
  destruct (warp_images_fit_images _ _ _ _ _ _ _ _ E) as (keys & Ek).
  destruct (warp_images_keys_images _ _ _ _ _ _ _ Ek) as (gray & Eg).
  rewrite warp_images_gray_first in Eg.
  destruct (negb (ndim vis =? 3)); [discriminate|].
  apply bind_ok in Eg. destruct Eg as (irr2 & _ & Eg).
  apply bind_ok in Eg. destruct Eg as (small & _ & Eg).
  apply bind_ok in Eg. destruct Eg as (sc & Es & Eg).
  apply bind_ok in Eg. destruct Eg as (g & _ & Eg).
  injection Eg as _ <- _.
  destruct (fst (shape2 vis) =? 0); [discriminate|].
  injection Es as <-. reflexivity.
Qed.

(** X23.  With a working height of 0 in the configuration, [warp_images]
    never returns images.  The 0 counts as a missing height, so the
    matching runs on copies of the least height of the pair; the scale
    is then 0, and a model that passes the validity check ends in
    ZeroDivisionError at [1/downsize_scale]. *)
Theorem warp_images_zero_downsize (lib : skimage) (cfg : config)
  (vis irr : ndarray) :
  downsize cfg = 0 ->
  (forall images,
     resize_images lib images (Some (downsize cfg))
     = resize_images lib images None)
  /\ match warp_images_fit lib cfg vis irr with
     | Ok (images, s, Some m, inliers) =>
         warp_images lib cfg vis irr
         = if transformation_valid lib cfg m then Err ZeroDivisionError
           else Err (ValueError failed_msg)
     | Ok (images, s, None, inliers) =>
         warp_images lib cfg vis irr = Err AttributeError
     | Err e => warp_images lib cfg vis irr = Err e
     end.
Proof.
  intros H0. split; [intros images; rewrite H0; reflexivity|].
  destruct (warp_images_fit lib cfg vis irr)
    as [[[[images s] m] inl]|e] eqn:E.
  - pose proof (warp_images_fit_scale _ _ _ _ _ _ _ _ E) as Hs.
    rewrite H0 in Hs. unfold warp_images. rewrite E. simpl bind.
    destruct m as [m|]; simpl bind; [|reflexivity].
    destruct (transformation_valid lib cfg m); simpl negb; cbv iota;
      [|reflexivity].
    destruct (Qc_eq_dec s (qc_of_nat 0)) as [_|N]; [reflexivity|].
    exfalso. apply N. rewrite Hs. change (qc_of_nat 0) with (Q2Qc 0).
    unfold Qcdiv. ring.
  - unfold warp_images. rewrite E. reflexivity.
Qed.

Lemma warp_images_zero_downsize_witness :
  (is_ok (warp_images_fit Toy.lib Sample.cfg_zero Sample.vis Sample.irr) = true
   /\ warp_images Toy.lib Sample.cfg_zero Sample.vis Sample.irr
      = Err ZeroDivisionError)
  /\ (forall images,
        resize_images Toy.lib images (Some (downsize Sample.cfg_zero))
        = resize_images Toy.lib images None)
  /\ match warp_images_fit Toy.lib Sample.cfg_zero Sample.vis Sample.irr with
     | Ok (images, s, Some m, inliers) =>
         warp_images Toy.lib Sample.cfg_zero Sample.vis Sample.irr
         = if transformation_valid Toy.lib Sample.cfg_zero m
           then Err ZeroDivisionError
           else Err (ValueError failed_msg)
     | Ok (images, s, None, inliers) =>
         warp_images Toy.lib Sample.cfg_zero Sample.vis Sample.irr
         = Err AttributeError
     | Err e =>
         warp_images Toy.lib Sample.cfg_zero Sample.vis Sample.irr = Err e
     end.
Proof.
  split; [split; vm_compute; reflexivity|].
  apply (warp_images_zero_downsize Toy.lib Sample.cfg_zero
           Sample.vis Sample.irr).
  reflexivity.
Defined.
